(** * Listing optimizer: the markdown extractor and the inline formatter

    A shallow embedding of [parseAnalysisFromText] and
    [formatAIResponseWithAsterisks], the two pure functions of the front end,
    together with the part of the ECMAScript string and regular-expression
    semantics they rely on.

    Strings are sequences of UTF-16 code units; a code unit is an [N].
    Regular expressions are kept as syntax trees that mirror the literals in
    the source, and are run by a backtracking matcher written in
    continuation-passing style after the ECMAScript pattern semantics.  In
    the comments a pattern is written with blanks between its tokens. *)

From Stdlib Require Import String Ascii.
From Stdlib Require Import List NArith Bool Arith Lia.
Import ListNotations.

(** ** Strings *)

Definition char := N.
Definition jsstring := list char.

(** An ASCII literal as a sequence of code units. *)
Definition js (s : string) : jsstring := map N_of_ascii (list_ascii_of_string s).

Definition NL : char := 10%N.
Definition nl : jsstring := [NL].
Definition STAR : char := 42%N.
Definition HASH : char := 35%N.
Definition HYPHEN : char := 45%N.

(** LineTerminator: LF, CR, LS, PS. *)
Definition is_line_terminator (c : char) : bool :=
  (N.eqb c 10 || N.eqb c 13 || N.eqb c 8232 || N.eqb c 8233)%N.

(** WhiteSpace or LineTerminator: what [\s] matches and what [trim] strips. *)
Definition is_ws (c : char) : bool :=
  (N.eqb c 9 || N.eqb c 10 || N.eqb c 11 || N.eqb c 12 || N.eqb c 13
   || N.eqb c 32 || N.eqb c 160 || N.eqb c 5760
   || (N.leb 8192 c && N.leb c 8202)
   || N.eqb c 8232 || N.eqb c 8233 || N.eqb c 8239 || N.eqb c 8287
   || N.eqb c 12288 || N.eqb c 65279)%N.

Fixpoint drop_ws (s : jsstring) : jsstring :=
  match s with
  | c :: t => if is_ws c then drop_ws t else s
  | [] => []
  end.

(** [String.prototype.trim]. *)
Definition trim (s : jsstring) : jsstring := rev (drop_ws (rev (drop_ws s))).

(** [s.substring(a, b)]: the arguments are swapped when [b < a], and indices
    beyond the end stop at the end. *)
Definition substring (a b : nat) (s : jsstring) : jsstring :=
  firstn (Nat.max a b - Nat.min a b) (skipn (Nat.min a b) s).

(** [s.substring(a)]. *)
Definition substring_from (a : nat) (s : jsstring) : jsstring := skipn a s.

Fixpoint starts_with (p s : jsstring) : bool :=
  match p, s with
  | [], _ => true
  | c :: p', d :: s' => N.eqb c d && starts_with p' s'
  | _ :: _, [] => false
  end.

(** [s.split('\n')]: split at every occurrence of one code unit. *)
Fixpoint split_char (sep : char) (s : jsstring) : list jsstring :=
  match s with
  | [] => [[]]
  | c :: t =>
      if N.eqb c sep then [] :: split_char sep t
      else match split_char sep t with
           | l :: ls => (c :: l) :: ls
           | [] => [[c]]
           end
  end.

(** Truthiness of a string: non-empty. *)
Definition truthy (s : jsstring) : bool :=
  match s with [] => false | _ :: _ => true end.

(** ** Regular expressions *)

Inductive regex : Type :=
| RChar (c : char)                       (* a literal code unit *)
| RSet (p : char -> bool)                (* a class: \s, [^*], [\s\S], . *)
| REmpty
| RSeq (r1 r2 : regex)
| RAlt (r1 r2 : regex)                   (* r1|r2 *)
| RStar (greedy : bool) (r : regex)      (* r* and r*? *)
| RPlus (greedy : bool) (r : regex)      (* r+ and r+? *)
| RGroup (n : nat) (r : regex)           (* the n-th capturing group *)
| RLookahead (r : regex)                 (* (?=r) *)
| RBol                                   (* ^ *)
| REol.                                  (* $ *)

(** A literal run of code units. *)
Fixpoint rlit (s : jsstring) : regex :=
  match s with
  | [] => REmpty
  | c :: t => RSeq (RChar c) (rlit t)
  end.

Definition cls_any : char -> bool := fun c => is_ws c || negb (is_ws c).
Definition cls_not_star : char -> bool := fun c => negb (N.eqb c STAR).
Definition cls_dot : char -> bool := fun c => negb (is_line_terminator c).

(** The matcher's state: the end index, the code unit just before it, the
    input from the end index on, and the captures made so far. *)
Record mstate : Type := MS {
  idx : nat;
  prev : option char;
  rest : jsstring;
  caps : list (nat * jsstring)
}.

Definition cont := mstate -> option mstate.

Definition advance (c : char) (t : jsstring) (x : mstate) : mstate :=
  MS (S (idx x)) (Some c) t (caps x).

Definition set_cap (n : nat) (s : jsstring) (x : mstate) : mstate :=
  MS (idx x) (prev x) (rest x) ((n, s) :: caps x).

Fixpoint lookup_cap (n : nat) (cs : list (nat * jsstring)) : option jsstring :=
  match cs with
  | [] => None
  | (k, s) :: t => if Nat.eqb k n then Some s else lookup_cap n t
  end.

Definition at_line_start (x : mstate) : bool :=
  match prev x with
  | None => true
  | Some c => is_line_terminator c
  end.

Definition at_line_end (x : mstate) : bool :=
  match rest x with
  | [] => true
  | c :: _ => is_line_terminator c
  end.

(** RepeatMatcher: [min] iterations are compulsory; an iteration that is not
    compulsory and consumes nothing is rejected; a greedy quantifier tries one
    more iteration before the continuation, a lazy one the continuation
    first.  The fuel bounds the number of iterations. *)
Fixpoint repeat_matcher (m : cont -> cont) (greedy : bool) (fuel min : nat)
         (k : cont) (x : mstate) {struct fuel} : option mstate :=
  match fuel with
  | 0 => None
  | S fuel' =>
      let d := fun y =>
        if Nat.eqb min 0 && Nat.eqb (idx y) (idx x) then None
        else repeat_matcher m greedy fuel' (pred min) k y in
      if negb (Nat.eqb min 0) then m d x
      else if greedy then
        match m d x with Some z => Some z | None => k x end
      else
        match k x with Some z => Some z | None => m d x end
  end.

(** [rmatch ml r k x]: match [r] at [x], then the continuation [k];
    [ml] is the [m] flag. *)
Fixpoint rmatch (ml : bool) (r : regex) (k : cont) (x : mstate)
         {struct r} : option mstate :=
  match r with
  | RChar c =>
      match rest x with
      | d :: t => if N.eqb c d then k (advance d t x) else None
      | [] => None
      end
  | RSet p =>
      match rest x with
      | d :: t => if p d then k (advance d t x) else None
      | [] => None
      end
  | REmpty => k x
  | RSeq r1 r2 => rmatch ml r1 (rmatch ml r2 k) x
  | RAlt r1 r2 =>
      match rmatch ml r1 k x with
      | Some z => Some z
      | None => rmatch ml r2 k x
      end
  | RStar g r1 =>
      repeat_matcher (rmatch ml r1) g (length (rest x) + 2) 0 k x
  | RPlus g r1 =>
      repeat_matcher (rmatch ml r1) g (length (rest x) + 2) 1 k x
  | RGroup n r1 =>
      rmatch ml r1
        (fun y => k (set_cap n (firstn (idx y - idx x) (rest x)) y)) x
  | RLookahead r1 =>
      match rmatch ml r1 Some x with
      | Some y => k (MS (idx x) (prev x) (rest x) (caps y))
      | None => None
      end
  | RBol =>
      if Nat.eqb (idx x) 0 || (ml && at_line_start x) then k x else None
  | REol =>
      match rest x with
      | [] => k x
      | _ :: _ => if ml && at_line_end x then k x else None
      end
  end.

(** The result of a successful match: [index], [m[0]] and the groups. *)
Record match_result : Type := MR {
  index : nat;
  matched : jsstring;
  groups : list (nat * jsstring)
}.

(** [m[n]]; [None] stands for [undefined]. *)
Definition group (n : nat) (m : match_result) : option jsstring :=
  lookup_cap n (groups m).

(** One attempt at a fixed position. *)
Definition match_at (ml : bool) (r : regex) (i : nat) (p : option char)
           (s : jsstring) : option match_result :=
  match rmatch ml r Some (MS i p s []) with
  | Some y => Some (MR i (firstn (idx y - i) s) (caps y))
  | None => None
  end.

(** RegExpBuiltinExec without the sticky flag: the leftmost position at or
    after the current one where the pattern matches. *)
Fixpoint exec_from (ml : bool) (r : regex) (i : nat) (p : option char)
         (s : jsstring) : option match_result :=
  match match_at ml r i p s with
  | Some m => Some m
  | None =>
      match s with
      | [] => None
      | c :: t => exec_from ml r (S i) (Some c) t
      end
  end.

(** [s.match(r)] for a pattern without the [g] flag. *)
Definition str_match (ml : bool) (r : regex) (s : jsstring) : option match_result :=
  exec_from ml r 0 None s.

(** [[...s.matchAll(r)]] for a pattern with the [g] flag.  [skip] counts the
    code units still covered by the previous match; after an empty match the
    search resumes one code unit further. *)
Fixpoint match_all_from (ml : bool) (r : regex) (i : nat) (p : option char)
         (s : jsstring) (skip : nat) : list match_result :=
  match skip with
  | S n =>
      match s with
      | c :: t => match_all_from ml r (S i) (Some c) t n
      | [] => []
      end
  | 0 =>
      match match_at ml r i p s with
      | Some m =>
          m :: match s with
               | c :: t => match_all_from ml r (S i) (Some c) t (length (matched m) - 1)
               | [] => []
               end
      | None =>
          match s with
          | c :: t => match_all_from ml r (S i) (Some c) t 0
          | [] => []
          end
      end
  end.

Definition str_match_all (ml : bool) (r : regex) (s : jsstring) : list match_result :=
  match_all_from ml r 0 None s 0.

(** [s.replace(r, f)] for a pattern with the [g] flag; [f] computes the
    replacement of one match. *)
Fixpoint replace_all_from (ml : bool) (r : regex) (f : match_result -> jsstring)
         (i : nat) (p : option char) (s : jsstring) (skip : nat) : jsstring :=
  match skip with
  | S n =>
      match s with
      | c :: t => replace_all_from ml r f (S i) (Some c) t n
      | [] => []
      end
  | 0 =>
      match match_at ml r i p s with
      | Some m =>
          f m ++ match s with
                 | c :: t =>
                     (match matched m with [] => [c] | _ :: _ => [] end)
                     ++ replace_all_from ml r f (S i) (Some c) t (length (matched m) - 1)
                 | [] => []
                 end
      | None =>
          match s with
          | c :: t => c :: replace_all_from ml r f (S i) (Some c) t 0
          | [] => []
          end
      end
  end.

Definition str_replace_all (ml : bool) (r : regex) (f : match_result -> jsstring)
           (s : jsstring) : jsstring :=
  replace_all_from ml r f 0 None s 0.

(** [s.replace(r, f)] for a pattern without the [g] flag: the first match only. *)
Definition str_replace_first (ml : bool) (r : regex) (f : match_result -> jsstring)
           (s : jsstring) : jsstring :=
  match str_match ml r s with
  | Some m =>
      firstn (index m) s ++ f m ++ skipn (index m + length (matched m)) s
  | None => s
  end.

(** [s.split(r)] for a pattern without capturing groups.  [acc] is the piece
    under construction, reversed; a match that ends where the piece starts is
    ignored; a match never starts at the end of the input. *)
Fixpoint split_from (ml : bool) (r : regex) (i : nat) (p : option char)
         (s : jsstring) (acc : jsstring) (skip : nat) : list jsstring :=
  match s with
  | [] => [rev acc]
  | c :: t =>
      match skip with
      | S n => split_from ml r (S i) (Some c) t [] n
      | 0 =>
          match match_at ml r i p s with
          | Some m =>
              match matched m, acc with
              | [], [] => split_from ml r (S i) (Some c) t [c] 0
              | [], _ :: _ => rev acc :: split_from ml r (S i) (Some c) t [c] 0
              | _ :: _, _ => rev acc :: split_from ml r (S i) (Some c) t [] (length (matched m) - 1)
              end
          | None => split_from ml r (S i) (Some c) t (c :: acc) 0
          end
      end
  end.

Definition str_split (ml : bool) (r : regex) (s : jsstring) : list jsstring :=
  match s with
  | [] => match match_at ml r 0 None [] with Some _ => [] | None => [[]] end
  | _ :: _ => split_from ml r 0 None s [] 0
  end.

(** ** The program *)

Declare Scope regex_scope.
Delimit Scope regex_scope with re.
Notation "a @@ b" := (RSeq a b) (at level 60, right associativity) : regex_scope.
Open Scope regex_scope.

Record Recommendation : Type := {
  element : jsstring;
  suggestion : jsstring;
  reasoning : jsstring
}.

Record WebSource : Type := {
  uri : jsstring;
  title : jsstring
}.

Record ListingAnalysis : Type := {
  overall_assessment : jsstring;
  price_analysis : jsstring;
  recommendations : list Recommendation;
  suggested_keywords : list jsstring;
  sources : option (list WebSource)
}.

(** The value of [$n] in a replacement template: a group that did not take
    part in the match contributes the empty string. *)
Definition subst_group (n : nat) (m : match_result) : jsstring :=
  match group n m with Some s => s | None => [] end.

(** *** formatAIResponseWithAsterisks *)

(** The pattern [/ \*\* ( [^*]+ ) \*\* /g]. *)
Definition re_bold : regex :=
  rlit (js "**") @@ RGroup 1 (RPlus true (RSet cls_not_star)) @@ rlit (js "**").

(** The pattern [/ \n \s* (?= \* ) /]. *)
Definition re_bullet_break : regex :=
  RChar NL @@ RStar true (RSet is_ws) @@ RLookahead (RChar STAR).

(** The pattern [/ \n /g]. *)
Definition re_newline : regex := RChar NL.

(** [rawText.replace(re_bold, '<strong>$1</strong>')] *)
Definition with_bold (rawText : jsstring) : jsstring :=
  str_replace_all false re_bold
    (fun m => js "<strong>" ++ subst_group 1 m ++ js "</strong>") rawText.

(** [withBold.split(re_bullet_break)] *)
Definition paragraphs_of (withBold : jsstring) : list jsstring :=
  str_split false re_bullet_break withBold.

(** The body of the [map] callback. *)
Definition html_paragraph (p : jsstring) : jsstring :=
  let content := trim p in
  let content :=
    if starts_with (js "*") content then trim (substring_from 1 content)
    else content in
  js "<p>" ++ str_replace_all false re_newline (fun _ => js "<br>") content
           ++ js "</p>".

Definition formatAIResponseWithAsterisks (rawText : jsstring) : jsstring :=
  if negb (truthy rawText) then []
  else
    let withBold := with_bold rawText in
    let paragraphs := paragraphs_of withBold in
    let htmlParagraphs := map html_paragraph paragraphs in
    concat htmlParagraphs.

(** *** parseAnalysisFromText *)

(** [hashes \s* name \s* ( [\s\S]*? ) (?= stop | $ )]: the shape shared by the
    section patterns and by the Suggestion pattern. *)
Definition re_section (hashes name : jsstring) (stop : regex) : regex :=
  rlit hashes @@ RStar true (RSet is_ws) @@ rlit name
    @@ RStar true (RSet is_ws)
    @@ RGroup 1 (RStar false (RSet cls_any))
    @@ RLookahead (RAlt stop REol).

(** [\n ##] *)
Definition stop_h2 : regex := rlit (nl ++ js "##").

(** [\n ## \s* Suggested SEO Tags] *)
Definition stop_tags : regex :=
  rlit (nl ++ js "##") @@ RStar true (RSet is_ws) @@ rlit (js "Suggested SEO Tags").

(** [\n #### \s* Reasoning:] *)
Definition stop_reasoning : regex :=
  rlit (nl ++ js "####") @@ RStar true (RSet is_ws) @@ rlit (js "Reasoning:").

(** [/ ## \s* Overall Assessment \s* ( [\s\S]*? ) (?= \n## | $ ) /] *)
Definition re_assessment : regex :=
  re_section (js "##") (js "Overall Assessment") stop_h2.

(** [/ ## \s* Price Analysis \s* ( [\s\S]*? ) (?= \n## | $ ) /] *)
Definition re_price : regex :=
  re_section (js "##") (js "Price Analysis") stop_h2.

(** [/ ## \s* Suggested SEO Tags \(13\) \s* ( [\s\S]*? ) (?= \n## | $ ) /] *)
Definition re_tags : regex :=
  re_section (js "##") (js "Suggested SEO Tags (13)") stop_h2.

(** [/ ## \s* Actionable Recommendations \s* ( [\s\S]*? ) (?= \n## \s* Suggested SEO Tags | $ ) /] *)
Definition re_recommendations : regex :=
  re_section (js "##") (js "Actionable Recommendations") stop_tags.

(** [/ ^ ### \s* Element: \s* ( .* ) /gm] *)
Definition re_element : regex :=
  RBol @@ rlit (js "###") @@ RStar true (RSet is_ws) @@ rlit (js "Element:")
    @@ RStar true (RSet is_ws) @@ RGroup 1 (RStar true (RSet cls_dot)).

(** [/ #### \s* Suggestion: \s* ( [\s\S]*? ) (?= \n#### \s* Reasoning: | $ ) /] *)
Definition re_suggestion : regex :=
  re_section (js "####") (js "Suggestion:") stop_reasoning.

(** [/ #### \s* Reasoning: \s* ( [\s\S]* ) /] *)
Definition re_reasoning : regex :=
  rlit (js "####") @@ RStar true (RSet is_ws) @@ rlit (js "Reasoning:")
    @@ RStar true (RSet is_ws) @@ RGroup 1 (RStar true (RSet cls_any)).

(** [/ ^ - /] *)
Definition re_leading_hyphen : regex := RBol @@ RChar HYPHEN.

(** The function can only fail where it calls a method on a group of a match
    ([m[1].trim()], [m[1].split]): [None] stands for the TypeError raised when
    the group is [undefined]. *)
Definition bind {A B : Type} (a : option A) (f : A -> option B) : option B :=
  match a with Some v => f v | None => None end.

Notation "x <- a ;; b" := (bind a (fun x => b))
  (at level 61, a at next level, right associativity).

(** [m ? m[1].trim() : ''], the pattern of every text field. *)
Definition trimmed_group (m : option match_result) : option jsstring :=
  match m with
  | Some r => g <- group 1 r ;; Some (trim g)
  | None => Some []
  end.

(** The chain applied to the body of the tags section. *)
Definition keywords_of (body : jsstring) : list jsstring :=
  map (fun kw => substring 0 20 kw)
    (filter truthy
       (map (fun kw => trim (str_replace_first false re_leading_hyphen (fun _ => []) kw))
          (split_char NL body))).

(** The [forEach] over [elementMatches]: [ms] is the part of the array from
    the current index on, so that [elementMatches[index + 1]] is the head of
    its tail; [acc] is [analysis.recommendations]. *)
Fixpoint each_element (recommendationsText : jsstring) (ms : list match_result)
         (acc : list Recommendation) : option (list Recommendation) :=
  match ms with
  | [] => Some acc
  | m :: ms' =>
      g <- group 1 m ;;
      let element := trim g in
      let startIndex := index m + length (matched m) in
      let endIndex :=
        match ms' with
        | nextMatch :: _ => index nextMatch
        | [] => length recommendationsText
        end in
      let chunk := substring startIndex endIndex recommendationsText in
      suggestion <- trimmed_group (str_match false re_suggestion chunk) ;;
      reasoning <- trimmed_group (str_match false re_reasoning chunk) ;;
      each_element recommendationsText ms'
        (if truthy element && (truthy suggestion || truthy reasoning)
         then acc ++ [Build_Recommendation element suggestion reasoning]
         else acc)
  end.

Definition parseAnalysisFromText (text : jsstring) : option ListingAnalysis :=
  overall <- match str_match false re_assessment text with
             | Some m => g <- group 1 m ;; Some (trim g)
             | None => Some []
             end ;;
  price <- match str_match false re_price text with
           | Some m => g <- group 1 m ;; Some (trim g)
           | None => Some []
           end ;;
  keywords <- match str_match false re_tags text with
              | Some m => g <- group 1 m ;; Some (keywords_of g)
              | None => Some []
              end ;;
  recs <- match str_match false re_recommendations text with
          | Some m =>
              recommendationsText <- group 1 m ;;
              let elementMatches := str_match_all true re_element recommendationsText in
              each_element recommendationsText elementMatches []
          | None => Some []
          end ;;
  Some (Build_ListingAnalysis overall price recs keywords None).


(** ** Direct descriptions of what the patterns match

    The functions below describe, without a pattern engine, what the patterns
    of the program match; the lemmas of the next part relate them to
    [rmatch]. *)

(** The state [n] code units further on. *)
Fixpoint fwd (n : nat) (x : mstate) : mstate :=
  match n with
  | 0 => x
  | S n' =>
      match rest x with
      | c :: t => fwd n' (advance c t x)
      | [] => x
      end
  end.

(** The length of the longest prefix made of code units in [p]. *)
Fixpoint run_len (p : char -> bool) (s : jsstring) : nat :=
  match s with
  | c :: t => if p c then S (run_len p t) else 0
  | [] => 0
  end.

(** Backtracking of a greedy quantifier over a class: the continuation is
    tried after [n] code units, then after [n - 1], down to none. *)
Fixpoint try_down (k : cont) (x : mstate) (n : nat) : option mstate :=
  match k (fwd n x) with
  | Some z => Some z
  | None =>
      match n with
      | 0 => None
      | S n' => try_down k x n'
      end
  end.

(** Backtracking of a lazy quantifier over a class: the continuation is tried
    at once, then after one more code unit, for at most [n] more. *)
Fixpoint try_up (k : cont) (x : mstate) (n : nat) : option mstate :=
  match k x with
  | Some z => Some z
  | None =>
      match n with
      | 0 => None
      | S n' =>
          match rest x with
          | c :: t => try_up k (advance c t x) n'
          | [] => None
          end
      end
  end.

(** A heading [hashes \s* name] starts the string. *)
Definition heading_here (hashes name s : jsstring) : bool :=
  starts_with hashes s
  && starts_with name (drop_ws (skipn (length hashes) s)).

(** What follows a heading that starts the string, after the whitespace. *)
Definition after_heading (hashes name s : jsstring) : jsstring :=
  drop_ws (skipn (length name) (drop_ws (skipn (length hashes) s))).

(** The string up to the first position where [stop] holds, or all of it. *)
Fixpoint body_upto (stop : jsstring -> bool) (s : jsstring) : jsstring :=
  match s with
  | [] => []
  | c :: t => if stop s then [] else c :: body_upto stop t
  end.

(** The suffix at the first position where a heading starts. *)
Fixpoint find_heading (hashes name s : jsstring) : option jsstring :=
  if heading_here hashes name s then Some s
  else match s with
       | [] => None
       | _ :: t => find_heading hashes name t
       end.

(** Group 1 of the first match of a section pattern. *)
Definition section_body (hashes name : jsstring) (stop : jsstring -> bool)
           (s : jsstring) : option jsstring :=
  match find_heading hashes name s with
  | Some h => Some (body_upto stop (after_heading hashes name h))
  | None => None
  end.

(** The lookaheads of the section patterns, as tests on the rest of the input. *)
Definition at_h2 (s : jsstring) : bool := starts_with (nl ++ js "##") s.

Definition at_tags (s : jsstring) : bool :=
  heading_here (nl ++ js "##") (js "Suggested SEO Tags") s.

Definition at_reasoning (s : jsstring) : bool :=
  heading_here (nl ++ js "####") (js "Reasoning:") s.

(** The same notions as propositions: the string begins with the heading,
    written with any run of whitespace between the hashes and the name. *)
Definition all_ws (w : jsstring) : Prop := Forall (fun c => is_ws c = true) w.

Definition begins_with_heading (hashes name s : jsstring) : Prop :=
  exists w tl, all_ws w /\ s = hashes ++ w ++ name ++ tl.

Definition contains_heading (hashes name text : jsstring) : Prop :=
  exists pre s, text = pre ++ s /\ begins_with_heading hashes name s.

(** The [^] of a multiline pattern. *)
Definition line_start_ok (i : nat) (p : option char) : bool :=
  Nat.eqb i 0
  || match p with None => true | Some c => is_line_terminator c end.

(** An element marker [### \s* Element:] starts the string, at a line start. *)
Definition element_here (i : nat) (p : option char) (s : jsstring) : bool :=
  line_start_ok i p && heading_here (js "###") (js "Element:") s.

(** Group 1 of the element pattern: what follows the marker and the
    whitespace, up to the next line terminator. *)
Definition element_label (s : jsstring) : jsstring :=
  let s2 := after_heading (js "###") (js "Element:") s in
  firstn (run_len cls_dot s2) s2.

(** What follows a match of the element pattern. *)
Definition element_tail (s : jsstring) : jsstring :=
  let s2 := after_heading (js "###") (js "Element:") s in
  skipn (run_len cls_dot s2) s2.

(** The two fields of a block, read off its chunk. *)
Definition chunk_suggestion (chunk : jsstring) : jsstring :=
  match section_body (js "####") (js "Suggestion:") at_reasoning chunk with
  | Some b => trim b
  | None => []
  end.

Definition chunk_reasoning (chunk : jsstring) : jsstring :=
  match find_heading (js "####") (js "Reasoning:") chunk with
  | Some hs => trim (after_heading (js "####") (js "Reasoning:") hs)
  | None => []
  end.

(** The text field of a section: its trimmed body, or the empty string. *)
Definition section_text (name : jsstring) (text : jsstring) : jsstring :=
  match section_body (js "##") name at_h2 text with
  | Some b => trim b
  | None => []
  end.

(** The result for a text without any section. *)
Definition empty_analysis : ListingAnalysis :=
  Build_ListingAnalysis [] [] [] [] None.

(** The recommendations of a text: the empty list when there is no section. *)
Definition recommendations_of (text : jsstring) : option (list Recommendation) :=
  match section_body (js "##") (js "Actionable Recommendations") at_tags text with
  | Some R => each_element R (str_match_all true re_element R) []
  | None => Some []
  end.

(** No heading starts at any position inside [c], when [tl] follows it. *)
Definition no_heading_in (hashes name c tl : jsstring) : Prop :=
  forall j, j < length c -> heading_here hashes name (skipn j (c ++ tl)) = false.

(** The test [t] fails at every position inside [c], when [tl] follows it. *)
Definition no_stop_in (t : jsstring -> bool) (c tl : jsstring) : Prop :=
  forall j, j < length c -> t (skipn j (c ++ tl)) = false.

(** A bold span [** inner **] starts the string: its inner text. *)
Definition bold_here (s : jsstring) : option jsstring :=
  if starts_with (js "**") s then
    let s1 := skipn 2 s in
    let n := run_len cls_not_star s1 in
    if Nat.ltb 0 n && starts_with (js "**") (skipn n s1)
    then Some (firstn n s1)
    else None
  else None.

(** A bullet break starts the string: a newline, then whitespace, then an
    asterisk in sight.  The result is the length of the separator. *)
Definition break_here (s : jsstring) : option nat :=
  match s with
  | c :: s1 =>
      if N.eqb NL c then
        match drop_ws s1 with
        | d :: _ => if N.eqb STAR d then Some (S (run_len is_ws s1)) else None
        | [] => None
        end
      else None
  | [] => None
  end.

(** Every newline replaced by a line break element. *)
Definition br (s : jsstring) : jsstring :=
  flat_map (fun c => if N.eqb NL c then js "<br>" else [c]) s.

Definition no_star (s : jsstring) : Prop := Forall (fun c => c <> STAR) s.

(** [split] at the bullet breaks, without the pattern engine: [acc] is the
    piece under construction, reversed, and [skip] what is left of the
    separator being crossed. *)
Fixpoint split_breaks (s acc : jsstring) (skip : nat) : list jsstring :=
  match s with
  | [] => [rev acc]
  | c :: t =>
      match skip with
      | S n => split_breaks t [] n
      | 0 =>
          match break_here s with
          | Some n => rev acc :: split_breaks t [] (n - 1)
          | None => split_breaks t (c :: acc) 0
          end
      end
  end.

(** No bold span starts at any position of the text, as a test. *)
Definition bold_free (t : jsstring) : bool :=
  forallb (fun j => match bold_here (skipn j t) with Some _ => false | None => true end)
    (seq 0 (S (length t))).

(** The same as a proposition: the text cannot be cut around a span
    [** inner **] whose inner text is non-empty and free of asterisks. *)
Definition no_bold_span (t : jsstring) : Prop :=
  forall pre inner post,
    t = pre ++ js "**" ++ inner ++ js "**" ++ post ->
    inner = [] \/ ~ no_star inner.

(** The input of the bullet example. *)
Definition bullet_example : jsstring :=
  js "Intro line" ++ nl ++ js "* First bullet" ++ nl ++ js "* Second bullet".

(** The text is cut around a section: a prefix in which the heading does not
    start, the heading with any whitespace inside and after it, the body, and
    the rest.  The body starts at the first code unit that is not whitespace,
    no stop occurs inside it, and the rest is empty or starts with a stop. *)
Definition section_cut (hashes name : jsstring) (t : jsstring -> bool)
           (text body : jsstring) : Prop :=
  exists pre w1 w2 post,
    text = pre ++ hashes ++ w1 ++ name ++ w2 ++ body ++ post
    /\ all_ws w1 /\ all_ws w2
    /\ no_heading_in hashes name pre (hashes ++ w1 ++ name ++ w2 ++ body ++ post)
    /\ drop_ws (body ++ post) = body ++ post
    /\ no_stop_in t body post
    /\ (post = [] \/ t post = true).

(** The keywords as the specification words them: line by line, strip a
    leading hyphen, trim, drop the line if nothing is left, keep at most the
    first 20 code units. *)
Definition strip_marker (line : jsstring) : jsstring :=
  match line with
  | c :: t => if N.eqb c HYPHEN then t else line
  | [] => []
  end.

Fixpoint spec_keywords (lines : list jsstring) : list jsstring :=
  match lines with
  | [] => []
  | l :: ls =>
      match trim (strip_marker l) with
      | [] => spec_keywords ls
      | k => firstn 20 k :: spec_keywords ls
      end
  end.



(** [no_stop_in] as a test. *)
Definition check_no_stop (t : jsstring -> bool) (c tl : jsstring) : bool :=
  forallb (fun j => negb (t (skipn j (c ++ tl)))) (seq 0 (length c)).

(** The name of a heading starts with a code unit that is not whitespace. *)
Definition head_not_ws (name : jsstring) : Prop :=
  match name with
  | c :: _ => is_ws c = false
  | [] => False
  end.


(** What the guard of the [forEach] callback ensures of an item. *)
Definition item_ok (r : Recommendation) : Prop :=
  element r <> [] /\ (suggestion r <> [] \/ reasoning r <> []).

Definition is_nil (s : jsstring) : bool :=
  match s with [] => true | _ :: _ => false end.

(** A pattern used inside a lookahead behaves as the test [t] on the rest of
    the input and leaves the captures alone. *)
Definition stop_spec (r : regex) (t : jsstring -> bool) : Prop :=
  forall x,
    match rmatch false r Some x with
    | Some y => t (rest x) = true /\ caps y = caps x
    | None => t (rest x) = false
    end.

(** *** Example texts *)

(** The tag example of the specification. *)
Definition tags_example_body : jsstring :=
  js "- handmade wedding sign" ++ nl
  ++ js "- custom welcome decor extremely long tag name".

Definition tags_example : jsstring :=
  js "## Suggested SEO Tags (13)" ++ nl ++ tags_example_body.

(** An Overall Assessment section with a deeper heading inside. *)
Definition deeper_heading_example : jsstring :=
  js "## Overall Assessment" ++ nl ++ js "Intro" ++ nl ++ js "### Details"
  ++ nl ++ js "More".

(** A Price Analysis section in the middle of a text. *)
Definition price_example : jsstring :=
  js "Intro" ++ nl ++ js "## Price Analysis" ++ nl ++ js "Cheap." ++ nl
  ++ js "## Suggested SEO Tags (13)" ++ nl ++ js "- tag".

(** A Recommendations section followed by a Price Analysis section. *)
Definition other_heading_example : jsstring :=
  js "## Actionable Recommendations" ++ nl ++ js "### Element: T" ++ nl
  ++ js "#### Suggestion: foo" ++ nl ++ js "#### Reasoning: bar" ++ nl
  ++ js "## Price Analysis" ++ nl ++ js "p".

(** A Recommendations section with a Price Analysis heading inside, ended
    by the Suggested SEO Tags heading. *)
Definition tags_end_example : jsstring :=
  js "## Actionable Recommendations" ++ nl ++ js "### Element: T" ++ nl
  ++ js "#### Suggestion: foo" ++ nl ++ js "## Price Analysis" ++ nl
  ++ js "## Suggested SEO Tags (13)" ++ nl ++ js "- tag".

Definition tags_end_body : jsstring :=
  js "### Element: T" ++ nl ++ js "#### Suggestion: foo" ++ nl
  ++ js "## Price Analysis".


(** A block whose element line carries no label. *)
Definition empty_label_example : jsstring :=
  js "## Actionable Recommendations" ++ nl ++ js "### Element:" ++ nl
  ++ js "#### Suggestion: foo" ++ nl ++ js "#### Reasoning: bar".


(** ** The rest of the front end

    The string computations of the display functions and of the action
    handlers.  What a handler does to the page and to the generation service
    is recorded as a list of effects, in the order of the calls; the service
    is a function from the prompt to its answer, [None] standing for a
    rejected call. *)

Definition QUOTE : char := 34%N.
Definition dquote : jsstring := [QUOTE].

(** *** displayFAQs *)

Record FAQItem : Type := {
  question : jsstring;
  answer : jsstring
}.

(** The pattern of one double quote, with the [g] flag. *)
Definition re_quote : regex := RChar QUOTE.

(** [faq.answer.replace(re_quote, '&quot;')] *)
Definition escape_quotes (s : jsstring) : jsstring :=
  str_replace_all false re_quote (fun _ => js "&quot;") s.

(** The template of one item, from the newline after the opening backquote
    to the closing tag. *)
Definition faq_item_html (faq : FAQItem) : jsstring :=
  nl ++ js "        <details class=" ++ dquote ++ js "faq-item" ++ dquote ++ js ">"
  ++ nl ++ js "            <summary class=" ++ dquote ++ js "faq-question" ++ dquote ++ js ">"
  ++ nl ++ js "                <span>" ++ question faq ++ js "</span>"
  ++ nl ++ js "                <button class=" ++ dquote ++ js "copy-btn" ++ dquote
  ++ js " data-copy-text=" ++ dquote ++ escape_quotes (answer faq) ++ dquote
  ++ js ">Copy Answer</button>"
  ++ nl ++ js "            </summary>"
  ++ nl ++ js "            <div class=" ++ dquote ++ js "faq-answer" ++ dquote ++ js ">"
  ++ nl ++ js "                 <div class=" ++ dquote ++ js "formatted-ai-response" ++ dquote
  ++ js ">" ++ formatAIResponseWithAsterisks (answer faq) ++ js "</div>"
  ++ nl ++ js "            </div>"
  ++ nl ++ js "        </details>".

Definition faqItemsHTML (faqs : list FAQItem) : jsstring :=
  concat (map faq_item_html faqs).

(** *** displayResults: the list of sources *)

(** [a || b] on strings. *)
Definition or_string (a b : jsstring) : jsstring := if truthy a then a else b.

Definition source_item_html (source : WebSource) : jsstring :=
  nl ++ js "          <li class=" ++ dquote ++ js "source-item" ++ dquote ++ js ">"
  ++ nl ++ js "            <a href=" ++ dquote ++ uri source ++ dquote
  ++ js " target=" ++ dquote ++ js "_blank" ++ dquote
  ++ js " rel=" ++ dquote ++ js "noopener noreferrer" ++ dquote ++ js ">"
  ++ or_string (title source) (uri source) ++ js "</a>"
  ++ nl ++ js "          </li>"
  ++ nl ++ js "        ".

Definition no_sources_html : jsstring :=
  js "<li>No external sources were cited for this analysis.</li>".

Definition sourcesHTML (analysis : ListingAnalysis) : jsstring :=
  match sources analysis with
  | Some (s :: l) => concat (map source_item_html (s :: l))
  | Some [] => no_sources_html
  | None => no_sources_html
  end.

(** *** The answer of the generation service and its sources *)

Record GroundingChunk : Type := { web : option WebSource }.

Record GroundingMetadata : Type := {
  groundingChunks : option (list GroundingChunk)
}.

Record Candidate : Type := { groundingMetadata : option GroundingMetadata }.

Record GenerateContentResponse : Type := {
  text : option jsstring;
  candidates : option (list Candidate)
}.

(** [response.candidates?.[0]?.groundingMetadata] *)
Definition first_metadata (response : GenerateContentResponse)
  : option GroundingMetadata :=
  match candidates response with
  | Some (c :: _) => groundingMetadata c
  | Some [] => None
  | None => None
  end.

(** [chunks.map(chunk => chunk.web).filter(web => web !== undefined)] *)
Fixpoint defined_webs (chunks : list GroundingChunk) : list WebSource :=
  match chunks with
  | [] => []
  | c :: t =>
      match web c with
      | Some w => w :: defined_webs t
      | None => defined_webs t
      end
  end.

(** The value of [sources] after the [if] on the grounding chunks. *)
Definition sources_of_response (response : GenerateContentResponse)
  : list WebSource :=
  match first_metadata response with
  | Some gm =>
      match groundingChunks gm with
      | Some chunks => defined_webs chunks
      | None => []
      end
  | None => []
  end.

(** *** The prompts of the follow-up actions *)

(** [a === b] on strings. *)
Fixpoint string_eqb (a b : jsstring) : bool :=
  match a, b with
  | [], [] => true
  | c :: a', d :: b' => N.eqb c d && string_eqb a' b'
  | _, _ => false
  end.

(** [recommendations.find(r => r.element === name)] *)
Fixpoint find_element (name : jsstring) (recs : list Recommendation)
  : option Recommendation :=
  match recs with
  | [] => None
  | r :: t => if string_eqb (element r) name then Some r else find_element name t
  end.

(** [recommendations.find(r => r.element === name)?.suggestion]; [None] is
    [undefined]. *)
Definition optimized (name : jsstring) (recs : list Recommendation)
  : option jsstring :=
  match find_element name recs with
  | Some r => Some (suggestion r)
  | None => None
  end.

(** A value of type [string | undefined] inside a template. *)
Definition interpolate (v : option jsstring) : jsstring :=
  match v with
  | Some s => s
  | None => js "undefined"
  end.

(** The two lines that carry the title and the description. *)
Definition product_lines (recs : list Recommendation) : jsstring :=
  js "        Product Title: " ++ dquote
  ++ interpolate (optimized (js "Title") recs) ++ dquote ++ nl
  ++ js "        Product Description: " ++ dquote
  ++ interpolate (optimized (js "Description") recs) ++ dquote ++ nl.

Definition promo_prompt (recs : list Recommendation) : jsstring :=
  js "You are a social media and email marketing expert. Based on the following optimized product information, create promotional content."
  ++ nl ++ nl ++ product_lines recs ++ nl
  ++ js "        Generate a concise and engaging Instagram post (including hashtags) and a short, persuasive promotional email."
  ++ nl
  ++ js "        Return the response as a single JSON object with keys "
  ++ dquote ++ js "instagram_post" ++ dquote ++ js " and " ++ dquote ++ js "promotional_email"
  ++ dquote ++ js "." ++ nl ++ js "        ".

Definition faq_prompt (recs : list Recommendation) : jsstring :=
  js "You are an expert e-commerce copywriter. Based on the provided product information, generate a list of 3-5 frequently asked questions (FAQs) that a potential buyer might have. Provide a clear and concise answer for each question."
  ++ nl ++ nl ++ product_lines recs ++ nl
  ++ js "        Return the response as a single JSON object with the key "
  ++ dquote ++ js "faqs" ++ dquote
  ++ js " which is an array of objects. Each object should have a "
  ++ dquote ++ js "question" ++ dquote ++ js " and " ++ dquote ++ js "answer" ++ dquote
  ++ js " key." ++ nl ++ js "        ".

(** *** The handlers *)

(** The module state the handlers read and write. *)
Record app_state : Type := {
  currentAnalysis : option ListingAnalysis;
  originalListing : option jsstring;
  currentFAQs : option (list FAQItem)
}.

Inductive effect : Type :=
| DisplayError (message : jsstring)
| SetButtonLoading (isLoading : bool) (defaultText : jsstring)
| ClearResults
| GenerateContent (prompt : jsstring)
| DisplayResults (analysis : ListingAnalysis)
| ConsoleError (label : jsstring).

(** The prompt of the first analysis. *)
Definition analysis_prompt (listing : jsstring) : jsstring :=
  js "Analyze the following e-commerce product listing. Use Google Search to find top-ranking, successful listings for similar products to inform your recommendations. The product is: "
  ++ listing ++ nl ++ nl
  ++ js "        Format your response using the following structure with Markdown headings. Do not use JSON."
  ++ nl ++ nl
  ++ js "        ## Overall Assessment" ++ nl
  ++ js "        A brief, 2-3 sentence summary of the listing's strengths and primary areas for improvement, based on your search."
  ++ nl ++ nl
  ++ js "        ## Price Analysis" ++ nl
  ++ js "        Based on your search of competing products, provide a brief analysis of the market price for this type of item. Suggest a competitive price range."
  ++ nl ++ nl
  ++ js "        ## Actionable Recommendations" ++ nl
  ++ js "        For each recommendation, provide the following structure:" ++ nl
  ++ js "        ### Element: [The part of the listing to change, e.g., 'Title', 'Description']"
  ++ nl
  ++ js "        #### Suggestion:" ++ nl
  ++ js "        [The specific, rewritten text or change to make.]" ++ nl
  ++ js "        #### Reasoning:" ++ nl
  ++ js "        [Why this change is recommended, referencing SEO, customer psychology, or findings from your search.]"
  ++ nl ++ nl
  ++ js "        Repeat the ###/#### structure for each recommendation. Make sure to include recommendations for at least 'Title' and 'Description'."
  ++ nl ++ nl
  ++ js "        ## Suggested SEO Tags (13)" ++ nl
  ++ js "        - A list of exactly 13 high-intent SEO tags, with each tag on a new line starting with a hyphen."
  ++ nl
  ++ js "        - IMPORTANT: Each tag MUST be 20 characters or less." ++ nl
  ++ js "        ".

Definition set_sources (analysis : ListingAnalysis) (s : list WebSource)
  : ListingAnalysis :=
  Build_ListingAnalysis (overall_assessment analysis) (price_analysis analysis)
    (recommendations analysis) (suggested_keywords analysis) (Some s).

(** [handleInitialGeneration]: [value] is the content of the text area and
    [generate] the generation service.  The elements of the page exist (main
    checks this before it installs the handler), so that the display
    functions do their work and do not fail; [displayResults] is where the
    current analysis is stored. *)
Definition handleInitialGeneration (st : app_state) (value : jsstring)
           (generate : jsstring -> option GenerateContentResponse)
  : app_state * list effect :=
  let listing := trim value in
  let st1 := Build_app_state (currentAnalysis st) (Some listing) (currentFAQs st) in
  if negb (truthy listing) then
    (st1, [DisplayError (js "Please paste your product listing to get started.")])
  else
    let userPrompt := analysis_prompt listing in
    let failure :=
      (st1, [ConsoleError (js "Initial generation failed:");
             DisplayError (js "An unexpected error occurred. Please check your API key and try again.")]) in
    let '(st2, body) :=
      match generate userPrompt with
      | None => failure
      | Some response =>
          let sources := sources_of_response response in
          match text response with
          | Some (c :: t) =>
              match parseAnalysisFromText (c :: t) with
              | Some analysis =>
                  let analysis := set_sources analysis sources in
                  (Build_app_state (Some analysis) (Some listing) (currentFAQs st),
                   [DisplayResults analysis])
              | None => failure
              end
          | Some [] =>
              (st1, [DisplayError (js "The AI returned an empty response. Please try again.")])
          | None =>
              (st1, [DisplayError (js "The AI returned an empty response. Please try again.")])
          end
      end in
    (st2,
     [SetButtonLoading true (js "Analyze Listing"); ClearResults;
      GenerateContent userPrompt]
     ++ body ++ [SetButtonLoading false (js "Analyze Listing")]).

(** *** Texts used to state the properties *)

(** The bold pass without the pattern engine; [skip] is what is left of the
    span being replaced. *)
Fixpoint bold_pass (s : jsstring) (skip : nat) : jsstring :=
  match skip with
  | S n =>
      match s with
      | _ :: t => bold_pass t n
      | [] => []
      end
  | 0 =>
      match bold_here s with
      | Some inner =>
          (js "<strong>" ++ inner ++ js "</strong>")
          ++ match s with
             | _ :: t => bold_pass t (length inner + 3)
             | [] => []
             end
      | None =>
          match s with
          | c :: t => c :: bold_pass t 0
          | [] => []
          end
      end
  end.

(** Lines joined by newlines. *)
Fixpoint join_lines (ls : list jsstring) : jsstring :=
  match ls with
  | [] => []
  | [l] => l
  | l :: t => l ++ nl ++ join_lines t
  end.

(** A bullet line: an asterisk, a blank, the item. *)
Definition bullet_line (item : jsstring) : jsstring := js "* " ++ item.

(** An item of a bullet list: not empty, trimmed, on one line, without
    asterisks. *)
Definition plain_item (item : jsstring) : Prop :=
  item <> [] /\ trim item = item /\ no_star item
  /\ Forall (fun c => c <> NL) item.

(** All the text fields of an item are trimmed. *)
Definition item_trimmed (r : Recommendation) : Prop :=
  trim (element r) = element r /\ trim (suggestion r) = suggestion r
  /\ trim (reasoning r) = reasoning r.

(** One code unit replaced everywhere. *)
Definition replace_char (c0 : char) (r : jsstring) (s : jsstring) : jsstring :=
  flat_map (fun c => if N.eqb c0 c then r else [c]) s.

(** The first candidate of the answer has a chunk with a web source. *)
Definition has_web_chunk (response : GenerateContentResponse) : Prop :=
  exists c cs gm chunks ch w,
    candidates response = Some (c :: cs)
    /\ groundingMetadata c = Some gm
    /\ groundingChunks gm = Some chunks
    /\ In ch chunks /\ web ch = Some w.

(** What the page shows for a text field without asterisks: nothing for the
    empty string, otherwise one paragraph with the field, its newlines turned
    into line break elements. *)
Definition shown_plain (s : jsstring) : Prop :=
  formatAIResponseWithAsterisks s
  = if truthy s then js "<p>" ++ br s ++ js "</p>" else [].

(** ** Sections and blocks, as the specification words them

    The notions below cut a text the way the specification describes it: a
    section runs from its heading to the place where it stops, and the body
    of the Recommendations section is a sequence of blocks. *)

(** The text is cut around the first occurrence of a heading: a prefix in
    which the heading does not start, the heading (the hashes, any
    whitespace, the name), the body, which runs from the end of the name to
    the first position where the stop holds, and the rest, which is empty or
    starts with the stop. *)
Definition heading_span (hashes name : jsstring) (t : jsstring -> bool)
           (text pre w body post : jsstring) : Prop :=
  text = pre ++ hashes ++ w ++ name ++ body ++ post
  /\ all_ws w
  /\ no_heading_in hashes name pre (hashes ++ w ++ name ++ body ++ post)
  /\ no_stop_in t body post
  /\ (post = [] \/ t post = true).















(** *** More example texts *)

(** A Suggested SEO Tags section with a deeper heading between two tags. *)
Definition tags_deeper_example : jsstring :=
  js "## Suggested SEO Tags (13)" ++ nl ++ js "- a" ++ nl ++ js "### Note"
  ++ nl ++ js "- b".








(** * Properties *)

(** ** The matcher on literals and on quantified classes *)

Lemma fwd_rest : forall n x, rest (fwd n x) = skipn n (rest x).
Proof.
  induction n as [|n IH]; intros x; simpl.
  - reflexivity.
  - destruct (rest x) as [|c t] eqn:E; simpl.
    + now rewrite E.
    + now rewrite IH.
Qed.

Lemma fwd_caps : forall n x, caps (fwd n x) = caps x.
Proof.
  induction n as [|n IH]; intros x; simpl; [reflexivity|].
  destruct (rest x); [reflexivity|]. now rewrite IH.
Qed.

Lemma fwd_idx : forall n x, n <= length (rest x) -> idx (fwd n x) = idx x + n.
Proof.
  induction n as [|n IH]; intros x H; simpl.
  - lia.
  - destruct (rest x) as [|c t] eqn:E; simpl in H; [lia|].
    rewrite IH; simpl; lia.
Qed.

Lemma fwd_add : forall n m x, fwd (n + m) x = fwd m (fwd n x).
Proof.
  induction n as [|n IH]; intros m x; simpl; [reflexivity|].
  destruct (rest x) as [|c t] eqn:E.
  - destruct m; simpl; [reflexivity|]. now rewrite E.
  - apply IH.
Qed.

Lemma starts_with_app : forall p s, starts_with p (p ++ s) = true.
Proof.
  induction p as [|c p IH]; intros s; simpl; [reflexivity|].
  now rewrite N.eqb_refl, IH.
Qed.

Lemma starts_with_split : forall p s,
  starts_with p s = true -> s = p ++ skipn (length p) s.
Proof.
  induction p as [|c p IH]; intros s H; simpl in *; [reflexivity|].
  destruct s as [|d s]; [discriminate|].
  apply andb_true_iff in H as [H1 H2]. apply N.eqb_eq in H1. subst d.
  f_equal. now apply IH.
Qed.

Lemma rmatch_rlit : forall ml s k x,
  rmatch ml (rlit s) k x =
  if starts_with s (rest x) then k (fwd (length s) x) else None.
Proof.
  induction s as [|c s IH]; intros k x; simpl.
  - reflexivity.
  - destruct (rest x) as [|d t] eqn:E; [reflexivity|].
    destruct (N.eqb c d) eqn:Ecd; simpl; [|reflexivity].
    rewrite IH. reflexivity.
Qed.

Lemma try_down_step : forall k x c t n,
  rest x = c :: t ->
  try_down k x (S n) =
  match try_down k (advance c t x) n with
  | Some z => Some z
  | None => k x
  end.
Proof.
  intros k x c t n E. induction n as [|n IH].
  - simpl. rewrite E. destruct (k (advance c t x)); [reflexivity|].
    destruct (k x); reflexivity.
  - change (try_down k x (S (S n))) with
      (match k (fwd (S (S n)) x) with
       | Some z => Some z | None => try_down k x (S n) end).
    rewrite IH.
    change (try_down k (advance c t x) (S n)) with
      (match k (fwd (S n) (advance c t x)) with
       | Some z => Some z | None => try_down k (advance c t x) n end).
    replace (fwd (S (S n)) x) with (fwd (S n) (advance c t x))
      by (simpl; now rewrite E).
    destruct (k (fwd (S n) (advance c t x))); reflexivity.
Qed.

Lemma repeat_greedy_0 : forall m fuel k x,
  repeat_matcher m true (S fuel) 0 k x =
  match m (fun y => if Nat.eqb (idx y) (idx x) then None
                    else repeat_matcher m true fuel 0 k y) x with
  | Some z => Some z
  | None => k x
  end.
Proof. reflexivity. Qed.

Lemma repeat_lazy_0 : forall m fuel k x,
  repeat_matcher m false (S fuel) 0 k x =
  match k x with
  | Some z => Some z
  | None => m (fun y => if Nat.eqb (idx y) (idx x) then None
                        else repeat_matcher m false fuel 0 k y) x
  end.
Proof. reflexivity. Qed.

Lemma repeat_1 : forall m g fuel k x,
  repeat_matcher m g (S fuel) 1 k x =
  m (fun y => repeat_matcher m g fuel 0 k y) x.
Proof. reflexivity. Qed.

Lemma rmatch_set : forall ml p k x,
  rmatch ml (RSet p) k x =
  match rest x with
  | d :: t => if p d then k (advance d t x) else None
  | [] => None
  end.
Proof. reflexivity. Qed.

Lemma idx_advance_neq : forall c t x, Nat.eqb (idx (advance c t x)) (idx x) = false.
Proof. intros. apply Nat.eqb_neq. simpl. lia. Qed.

(** A greedy star over a class. *)
Lemma repeat_greedy_set : forall ml p k s x fuel,
  rest x = s -> length s < fuel ->
  repeat_matcher (rmatch ml (RSet p)) true fuel 0 k x =
  try_down k x (run_len p s).
Proof.
  induction s as [|c t IH]; intros x fuel E Hf;
    (destruct fuel as [|fuel]; [simpl in Hf; lia|]);
    rewrite repeat_greedy_0, rmatch_set, E.
  - simpl. destruct (k x); reflexivity.
  - cbn [run_len]. destruct (p c) eqn:Ep.
    + rewrite idx_advance_neq.
      rewrite (IH (advance c t x) fuel eq_refl) by (simpl in Hf; lia).
      rewrite (try_down_step k x c t (run_len p t) E). reflexivity.
    + simpl. destruct (k x); reflexivity.
Qed.

Lemma rmatch_star_greedy : forall ml p k x,
  rmatch ml (RStar true (RSet p)) k x = try_down k x (run_len p (rest x)).
Proof.
  intros.
  change (rmatch ml (RStar true (RSet p)) k x) with
    (repeat_matcher (rmatch ml (RSet p)) true (length (rest x) + 2) 0 k x).
  apply repeat_greedy_set; [reflexivity|lia].
Qed.

Lemma rmatch_plus_greedy : forall ml p k x,
  rmatch ml (RPlus true (RSet p)) k x =
  match rest x with
  | c :: t => if p c then try_down k (advance c t x) (run_len p t) else None
  | [] => None
  end.
Proof.
  intros.
  change (rmatch ml (RPlus true (RSet p)) k x) with
    (repeat_matcher (rmatch ml (RSet p)) true (length (rest x) + 2) 1 k x).
  rewrite Nat.add_comm. cbn [Nat.add].
  rewrite repeat_1, rmatch_set.
  destruct (rest x) as [|c t] eqn:E; [reflexivity|].
  destruct (p c); [|reflexivity].
  apply repeat_greedy_set; simpl; [reflexivity|lia].
Qed.

(** A lazy star over a class. *)
Lemma repeat_lazy_set : forall ml p k s x fuel,
  rest x = s -> length s < fuel ->
  repeat_matcher (rmatch ml (RSet p)) false fuel 0 k x =
  try_up k x (run_len p s).
Proof.
  induction s as [|c t IH]; intros x fuel E Hf;
    (destruct fuel as [|fuel]; [simpl in Hf; lia|]);
    rewrite repeat_lazy_0, rmatch_set, E.
  - simpl. destruct (k x); reflexivity.
  - cbn [run_len]. destruct (p c) eqn:Ep.
    + rewrite idx_advance_neq.
      rewrite (IH (advance c t x) fuel eq_refl) by (simpl in Hf; lia).
      simpl. now rewrite E.
    + simpl. destruct (k x); reflexivity.
Qed.

Lemma rmatch_star_lazy : forall ml p k x,
  rmatch ml (RStar false (RSet p)) k x = try_up k x (run_len p (rest x)).
Proof.
  intros.
  change (rmatch ml (RStar false (RSet p)) k x) with
    (repeat_matcher (rmatch ml (RSet p)) false (length (rest x) + 2) 0 k x).
  apply repeat_lazy_set; [reflexivity|lia].
Qed.

(** When the continuation cannot succeed in front of a code unit of the
    class, a greedy star is deterministic: it takes the whole run. *)
Lemma try_down_reject : forall p k n x,
  (forall y c t, rest y = c :: t -> p c = true -> k y = None) ->
  n <= run_len p (rest x) ->
  try_down k x n = k (fwd n x).
Proof.
  intros p k n x Hrej. revert x.
  induction n as [|n IH]; intros x Hn.
  - simpl. destruct (k x); reflexivity.
  - destruct (rest x) as [|c t] eqn:E; [simpl in Hn; lia|].
    simpl in Hn. destruct (p c) eqn:Ep; [|lia].
    rewrite (try_down_step k x c t n E).
    rewrite IH by (simpl; lia).
    simpl. rewrite E.
    destruct (k (fwd n (advance c t x))); [reflexivity|].
    apply (Hrej x c t E Ep).
Qed.

Lemma try_down_first : forall k n x z,
  k (fwd n x) = Some z -> try_down k x n = Some z.
Proof.
  intros k n x z H. destruct n; simpl in *; now rewrite H.
Qed.

Lemma run_len_le : forall p s, run_len p s <= length s.
Proof.
  induction s as [|c t IH]; simpl; [lia|]. destruct (p c); simpl; lia.
Qed.

Lemma drop_ws_run : forall s, drop_ws s = skipn (run_len is_ws s) s.
Proof.
  induction s as [|c t IH]; simpl; [reflexivity|].
  destruct (is_ws c); [apply IH|reflexivity].
Qed.

Lemma run_len_any : forall s, run_len cls_any s = length s.
Proof.
  induction s as [|c t IH]; simpl; [reflexivity|].
  unfold cls_any at 1. destruct (is_ws c); simpl; now rewrite IH.
Qed.

Lemma try_up_ext : forall k k' n x,
  (forall y, k y = k' y) -> try_up k x n = try_up k' x n.
Proof.
  intros k k' n. induction n as [|n IH]; intros x H; simpl; rewrite H.
  - reflexivity.
  - destruct (k' x); [reflexivity|]. destruct (rest x); [reflexivity|].
    now apply IH.
Qed.

(** ** The section patterns *)

Lemma mstate_eta : forall x, MS (idx x) (prev x) (rest x) (caps x) = x.
Proof. now destruct x. Qed.

Lemma ws_reject_lit : forall ml c0 n k y c t,
  is_ws c0 = false ->
  rest y = c :: t -> is_ws c = true ->
  rmatch ml (rlit (c0 :: n)) k y = None.
Proof.
  intros ml c0 n k y c t Hc0 E Hc. cbn [rlit rmatch]. rewrite E.
  destruct (N.eqb c0 c) eqn:Ecc; [|reflexivity].
  apply N.eqb_eq in Ecc. subst c. congruence.
Qed.

(** [hashes \s* name r]: the heading must start here, and [r] goes on after
    the name. *)
Lemma rmatch_heading : forall ml h c0 n k x,
  is_ws c0 = false ->
  rmatch ml (rlit h @@ RStar true (RSet is_ws) @@ rlit (c0 :: n)) k x =
  if heading_here h (c0 :: n) (rest x)
  then k (fwd (length (c0 :: n))
            (fwd (run_len is_ws (skipn (length h) (rest x))) (fwd (length h) x)))
  else None.
Proof.
  intros ml h c0 n k x Hc0.
  change (rmatch ml (rlit h @@ RStar true (RSet is_ws) @@ rlit (c0 :: n)) k x)
    with (rmatch ml (rlit h)
            (rmatch ml (RStar true (RSet is_ws))
               (rmatch ml (rlit (c0 :: n)) k)) x).
  rewrite rmatch_rlit. unfold heading_here.
  destruct (starts_with h (rest x)) eqn:Eh; [|reflexivity].
  rewrite rmatch_star_greedy.
  rewrite (try_down_reject is_ws); [| |rewrite fwd_rest; lia].
  - rewrite rmatch_rlit. rewrite !fwd_rest. rewrite <- drop_ws_run. reflexivity.
  - intros y c t E Hc. now apply (ws_reject_lit ml c0 n _ y c t Hc0 E).
Qed.

Lemma firstn_body_upto : forall t s,
  firstn (length (body_upto t s)) s = body_upto t s.
Proof.
  induction s as [|c s IH]; simpl; [reflexivity|].
  destruct (t (c :: s)); simpl; [reflexivity|]. now rewrite IH.
Qed.

Lemma body_upto_length : forall t s, length (body_upto t s) <= length s.
Proof.
  induction s as [|c s IH]; simpl; [lia|].
  destruct (t (c :: s)); simpl; lia.
Qed.

Lemma try_up_body : forall (t : jsstring -> bool) (g : mstate -> mstate) s y0,
  rest y0 = s ->
  try_up (fun y => if t (rest y) || is_nil (rest y) then Some (g y) else None)
    y0 (length s) =
  Some (g (fwd (length (body_upto t s)) y0)).
Proof.
  induction s as [|c s IH]; intros y0 E.
  - simpl. rewrite E. now rewrite orb_true_r.
  - cbn [length try_up body_upto]. rewrite E. cbn [is_nil].
    rewrite orb_false_r. destruct (t (c :: s)) eqn:Et; [reflexivity|].
    rewrite (IH (advance c s y0) eq_refl). cbn [length fwd]. now rewrite E.
Qed.

Lemma lookahead_stop : forall stop t x,
  stop_spec stop t ->
  rmatch false (RLookahead (RAlt stop REol)) Some x =
  if t (rest x) || is_nil (rest x) then Some x else None.
Proof.
  intros stop t x Hs. cbn [rmatch]. specialize (Hs x).
  destruct (rmatch false stop Some x) as [y|].
  - destruct Hs as [Ht Hc]. rewrite Ht, Hc. simpl. now rewrite mstate_eta.
  - rewrite Hs. simpl. destruct (rest x) eqn:E; simpl.
    + rewrite <- E. now rewrite mstate_eta.
    + reflexivity.
Qed.

(** The tail of a section pattern, [\s* ( [\s\S]*? ) (?= stop | $ )], always
    matches: the whitespace is skipped and group 1 runs to the first stop. *)
Lemma rmatch_section_tail : forall stop t x,
  stop_spec stop t ->
  rmatch false (RStar true (RSet is_ws)
                @@ RGroup 1 (RStar false (RSet cls_any))
                @@ RLookahead (RAlt stop REol)) Some x =
  Some (set_cap 1 (body_upto t (drop_ws (rest x)))
          (fwd (length (body_upto t (drop_ws (rest x))))
             (fwd (run_len is_ws (rest x)) x))).
Proof.
  intros stop t x Hs.
  change (rmatch false (RStar true (RSet is_ws)
            @@ RGroup 1 (RStar false (RSet cls_any))
            @@ RLookahead (RAlt stop REol)) Some x)
    with (rmatch false (RStar true (RSet is_ws))
            (rmatch false (RGroup 1 (RStar false (RSet cls_any)))
               (rmatch false (RLookahead (RAlt stop REol)) Some)) x).
  rewrite rmatch_star_greedy. apply try_down_first.
  set (y0 := fwd (run_len is_ws (rest x)) x).
  assert (Ey0 : rest y0 = drop_ws (rest x))
    by (unfold y0; now rewrite fwd_rest, drop_ws_run).
  change (rmatch false (RGroup 1 (RStar false (RSet cls_any)))
            (rmatch false (RLookahead (RAlt stop REol)) Some) y0)
    with (rmatch false (RStar false (RSet cls_any))
            (fun y => rmatch false (RLookahead (RAlt stop REol)) Some
                        (set_cap 1 (firstn (idx y - idx y0) (rest y0)) y)) y0).
  rewrite rmatch_star_lazy, run_len_any.
  erewrite (try_up_ext _
     (fun y => if t (rest y) || is_nil (rest y)
               then Some (set_cap 1 (firstn (idx y - idx y0) (rest y0)) y)
               else None)).
  2:{ intros y. now rewrite (lookahead_stop stop t _ Hs). }
  rewrite <- Ey0.
  rewrite (try_up_body t (fun y => set_cap 1 (firstn (idx y - idx y0) (rest y0)) y)
             (rest y0) y0 eq_refl).
  f_equal. f_equal.
  rewrite fwd_idx by apply body_upto_length.
  replace (idx y0 + _ - idx y0) with (length (body_upto t (rest y0))) by lia.
  apply firstn_body_upto.
Qed.

Lemma stop_heading_spec : forall h c0 n,
  is_ws c0 = false ->
  stop_spec (rlit h @@ RStar true (RSet is_ws) @@ rlit (c0 :: n))
            (heading_here h (c0 :: n)).
Proof.
  intros h c0 n Hc0 x. rewrite rmatch_heading by assumption.
  destruct (heading_here h (c0 :: n) (rest x)); [|reflexivity].
  split; [reflexivity|]. now rewrite !fwd_caps.
Qed.

Lemma stop_h2_spec : stop_spec stop_h2 at_h2.
Proof.
  intros x. unfold stop_h2, at_h2. rewrite rmatch_rlit.
  destruct (starts_with (nl ++ js "##") (rest x)); [|reflexivity].
  split; [reflexivity|apply fwd_caps].
Qed.

Lemma stop_tags_spec : stop_spec stop_tags at_tags.
Proof. apply (stop_heading_spec (nl ++ js "##")). reflexivity. Qed.

Lemma stop_reasoning_spec : stop_spec stop_reasoning at_reasoning.
Proof. apply (stop_heading_spec (nl ++ js "####")). reflexivity. Qed.

(** One attempt of a section pattern: it succeeds exactly where the heading
    starts, and group 1 is then the text after the heading up to the stop. *)
Lemma match_at_section : forall h c0 n stop t i p s,
  is_ws c0 = false -> stop_spec stop t ->
  (heading_here h (c0 :: n) s = true ->
   exists w, match_at false (re_section h (c0 :: n) stop) i p s =
             Some (MR i w [(1, body_upto t (after_heading h (c0 :: n) s))]))
  /\ (heading_here h (c0 :: n) s = false ->
      match_at false (re_section h (c0 :: n) stop) i p s = None).
Proof.
  intros h c0 n stop t i p s Hc0 Hs. unfold match_at, re_section.
  change (rmatch false
            (rlit h @@ RStar true (RSet is_ws) @@ rlit (c0 :: n)
             @@ RStar true (RSet is_ws)
             @@ RGroup 1 (RStar false (RSet cls_any))
             @@ RLookahead (RAlt stop REol)) Some (MS i p s []))
    with (rmatch false (rlit h @@ RStar true (RSet is_ws) @@ rlit (c0 :: n))
            (rmatch false (RStar true (RSet is_ws)
                           @@ RGroup 1 (RStar false (RSet cls_any))
                           @@ RLookahead (RAlt stop REol)) Some)
            (MS i p s [])).
  rewrite rmatch_heading by assumption. cbn [rest].
  destruct (heading_here h (c0 :: n) s); split; try discriminate; intros _.
  - rewrite (rmatch_section_tail stop t _ Hs).
    rewrite !fwd_rest. cbn [rest]. rewrite <- !drop_ws_run.
    unfold after_heading. eexists. cbn [set_cap caps].
    rewrite !fwd_caps. reflexivity.
  - reflexivity.
Qed.

Lemma find_heading_length : forall h n s hs,
  find_heading h n s = Some hs -> length hs <= length s.
Proof.
  induction s as [|c s IH]; intros hs H; simpl in H.
  - destruct (heading_here h n []); inversion H; subst; simpl; lia.
  - destruct (heading_here h n (c :: s)); [inversion H; subst; simpl; lia|].
    apply IH in H. simpl. lia.
Qed.

(** The search, for any pattern that matches exactly where a heading starts
    and whose group 1 is [body] of the input from there: the first position
    where the heading starts wins. *)
Section HeadingSearch.

Variables (ml : bool) (re : regex) (h n : jsstring) (body : jsstring -> jsstring).

Hypothesis match_at_re : forall i p s,
  (heading_here h n s = true ->
   exists w, match_at ml re i p s = Some (MR i w [(1, body s)]))
  /\ (heading_here h n s = false -> match_at ml re i p s = None).

Lemma exec_heading : forall s i p,
  match find_heading h n s with
  | Some hs =>
      exists w, exec_from ml re i p s =
                Some (MR (i + (length s - length hs)) w [(1, body hs)])
  | None => exec_from ml re i p s = None
  end.
Proof.
  induction s as [|c s IH]; intros i p.
  - cbn [find_heading exec_from].
    destruct (match_at_re i p []) as [H1 H2].
    destruct (heading_here h n []).
    + destruct (H1 eq_refl) as [w Hw]. rewrite Hw. exists w.
      now rewrite Nat.sub_diag, Nat.add_0_r.
    + now rewrite (H2 eq_refl).
  - cbn [find_heading exec_from].
    destruct (match_at_re i p (c :: s)) as [H1 H2].
    destruct (heading_here h n (c :: s)).
    + destruct (H1 eq_refl) as [w Hw]. rewrite Hw. exists w.
      now rewrite Nat.sub_diag, Nat.add_0_r.
    + rewrite (H2 eq_refl). specialize (IH (S i) (Some c)).
      destruct (find_heading h n s) as [hs|] eqn:Ef; [|exact IH].
      destruct IH as [w Hw]. exists w. rewrite Hw.
      apply find_heading_length in Ef. cbn [length].
      do 2 f_equal. lia.
Qed.

(** [m ? f(m[1]) : d] *)
Lemma with_group_heading : forall (A : Type) (f : jsstring -> option A)
    (d : option A) s,
  match str_match ml re s with
  | Some m => g <- group 1 m ;; f g
  | None => d
  end =
  match find_heading h n s with
  | Some hs => f (body hs)
  | None => d
  end.
Proof.
  intros A f d s. unfold str_match.
  pose proof (exec_heading s 0 None) as H.
  destruct (find_heading h n s) as [hs|].
  - destruct H as [w Hw]. rewrite Hw. reflexivity.
  - rewrite H. reflexivity.
Qed.

(** [m ? m[1].trim() : ''] *)
Lemma trimmed_group_heading : forall s,
  trimmed_group (str_match ml re s) =
  Some (match find_heading h n s with
        | Some hs => trim (body hs)
        | None => []
        end).
Proof.
  intros s. unfold trimmed_group, str_match.
  pose proof (exec_heading s 0 None) as H.
  destruct (find_heading h n s) as [hs|].
  - destruct H as [w Hw]. rewrite Hw. reflexivity.
  - rewrite H. reflexivity.
Qed.

Lemma str_match_heading_group : forall s,
  match str_match ml re s with
  | Some m => group 1 m
  | None => None
  end = option_map body (find_heading h n s).
Proof.
  intros s. unfold str_match.
  pose proof (exec_heading s 0 None) as H.
  destruct (find_heading h n s) as [hs|].
  - destruct H as [w Hw]. rewrite Hw. reflexivity.
  - rewrite H. reflexivity.
Qed.

Lemma str_match_heading_none : forall s,
  str_match ml re s = None <-> find_heading h n s = None.
Proof.
  intros s. unfold str_match.
  pose proof (exec_heading s 0 None) as H.
  destruct (find_heading h n s) as [hs|].
  - destruct H as [w Hw]. rewrite Hw. split; discriminate.
  - rewrite H. tauto.
Qed.


End HeadingSearch.

Lemma section_body_find : forall h n t s,
  section_body h n t s =
  option_map (fun hs => body_upto t (after_heading h n hs)) (find_heading h n s).
Proof. intros. unfold section_body. now destruct (find_heading h n s). Qed.

Lemma trimmed_group_section : forall h c0 n stop t s,
  is_ws c0 = false -> stop_spec stop t ->
  trimmed_group (str_match false (re_section h (c0 :: n) stop) s) =
  Some (match section_body h (c0 :: n) t s with
        | Some b => trim b
        | None => []
        end).
Proof.
  intros h c0 n stop t s Hc0 Hs.
  rewrite (trimmed_group_heading false _ h (c0 :: n)
             (fun hs => body_upto t (after_heading h (c0 :: n) hs))).
  - unfold section_body. now destruct (find_heading h (c0 :: n) s).
  - intros i p s'. now apply match_at_section.
Qed.

Lemma str_match_section_group : forall h c0 n stop t s,
  is_ws c0 = false -> stop_spec stop t ->
  match str_match false (re_section h (c0 :: n) stop) s with
  | Some m => group 1 m
  | None => None
  end = section_body h (c0 :: n) t s.
Proof.
  intros h c0 n stop t s Hc0 Hs.
  rewrite (str_match_heading_group false _ h (c0 :: n)
             (fun hs => body_upto t (after_heading h (c0 :: n) hs))).
  - now rewrite section_body_find.
  - intros i p s'. now apply match_at_section.
Qed.

Lemma str_match_section_none : forall h c0 n stop s,
  is_ws c0 = false -> (exists t, stop_spec stop t) ->
  (str_match false (re_section h (c0 :: n) stop) s = None <->
   find_heading h (c0 :: n) s = None).
Proof.
  intros h c0 n stop s Hc0 [t Hs].
  apply (str_match_heading_none false _ h (c0 :: n)
           (fun hs => body_upto t (after_heading h (c0 :: n) hs))).
  intros i p s'. now apply match_at_section.
Qed.

Lemma with_group_section : forall (A : Type) (f : jsstring -> option A) d
    h c0 n stop t s,
  is_ws c0 = false -> stop_spec stop t ->
  match str_match false (re_section h (c0 :: n) stop) s with
  | Some m => g <- group 1 m ;; f g
  | None => d
  end =
  match section_body h (c0 :: n) t s with
  | Some b => f b
  | None => d
  end.
Proof.
  intros A f d h c0 n stop t s Hc0 Hs.
  rewrite (with_group_heading false _ h (c0 :: n)
             (fun hs => body_upto t (after_heading h (c0 :: n) hs))).
  - unfold section_body. now destruct (find_heading h (c0 :: n) s).
  - intros i p s'. now apply match_at_section.
Qed.

(** ** The element and the reasoning patterns *)

Lemma fwd_idx_rest : forall n x,
  idx (fwd n x) + length (rest (fwd n x)) = idx x + length (rest x).
Proof.
  induction n as [|n IH]; intros x; simpl; [reflexivity|].
  destruct (rest x) as [|c t] eqn:E; [now rewrite E|].
  rewrite IH. simpl. lia.
Qed.

Lemma fwd_rest_le : forall n x, length (rest (fwd n x)) <= length (rest x).
Proof.
  intros. rewrite fwd_rest, length_skipn. lia.
Qed.

(** [\s* ( q* )] as the end of a pattern, for a class [q]: it always matches. *)
Lemma rmatch_greedy_group_tail : forall ml q x,
  rmatch ml (RStar true (RSet is_ws) @@ RGroup 1 (RStar true (RSet q))) Some x =
  Some (set_cap 1 (firstn (run_len q (drop_ws (rest x))) (drop_ws (rest x)))
          (fwd (run_len q (drop_ws (rest x))) (fwd (run_len is_ws (rest x)) x))).
Proof.
  intros ml q x.
  change (rmatch ml (RStar true (RSet is_ws) @@ RGroup 1 (RStar true (RSet q))) Some x)
    with (rmatch ml (RStar true (RSet is_ws))
            (rmatch ml (RGroup 1 (RStar true (RSet q))) Some) x).
  rewrite rmatch_star_greedy. apply try_down_first.
  set (y0 := fwd (run_len is_ws (rest x)) x).
  assert (Ey0 : rest y0 = drop_ws (rest x))
    by (unfold y0; now rewrite fwd_rest, drop_ws_run).
  change (rmatch ml (RGroup 1 (RStar true (RSet q))) Some y0)
    with (rmatch ml (RStar true (RSet q))
            (fun y => Some (set_cap 1 (firstn (idx y - idx y0) (rest y0)) y)) y0).
  rewrite rmatch_star_greedy. apply try_down_first.
  rewrite <- Ey0. f_equal. f_equal.
  rewrite fwd_idx by apply run_len_le. f_equal. lia.
Qed.

Lemma match_at_element : forall i p s,
  match_at true re_element i p s =
  if element_here i p s
  then Some (MR i (firstn (length s - length (element_tail s)) s)
                [(1, element_label s)])
  else None.
Proof.
  intros i p s. unfold match_at, re_element, element_here.
  change (rmatch true
            (RBol @@ rlit (js "###") @@ RStar true (RSet is_ws)
             @@ rlit (js "Element:") @@ RStar true (RSet is_ws)
             @@ RGroup 1 (RStar true (RSet cls_dot))) Some (MS i p s []))
    with (if Nat.eqb i 0 || (true && at_line_start (MS i p s []))
          then rmatch true
                 (rlit (js "###") @@ RStar true (RSet is_ws) @@ rlit (js "Element:"))
                 (rmatch true (RStar true (RSet is_ws)
                               @@ RGroup 1 (RStar true (RSet cls_dot))) Some)
                 (MS i p s [])
          else None).
  unfold line_start_ok, at_line_start. cbn [prev andb].
  destruct (Nat.eqb i 0 || match p with None => true | Some c => is_line_terminator c end);
    [|reflexivity].
  cbn [andb].
  rewrite (rmatch_heading true (js "###") 69%N (js "lement:")) by reflexivity.
  cbn [rest].
  change (69%N :: js "lement:") with (js "Element:").
  destruct (heading_here (js "###") (js "Element:") s) eqn:Eh; [|reflexivity].
  rewrite rmatch_greedy_group_tail.
  set (x2 := fwd (length (js "Element:"))
               (fwd (run_len is_ws (skipn (length (js "###")) s))
                  (fwd (length (js "###")) (MS i p s [])))).
  assert (E2 : drop_ws (rest x2) = after_heading (js "###") (js "Element:") s).
  { unfold x2, after_heading. rewrite !fwd_rest. cbn [rest].
    now rewrite <- drop_ws_run. }
  set (yE := fwd (run_len cls_dot (drop_ws (rest x2))) (fwd (run_len is_ws (rest x2)) x2)).
  assert (Er : rest yE = element_tail s).
  { unfold yE, element_tail. rewrite fwd_rest, fwd_rest, <- drop_ws_run.
    now rewrite E2. }
  assert (Ei : idx yE + length (rest yE) = i + length s).
  { unfold yE, x2. now rewrite !fwd_idx_rest. }
  cbn [set_cap idx caps]. unfold yE at 2. rewrite !fwd_caps. unfold x2 at 3.
  rewrite !fwd_caps. cbn [caps].
  rewrite E2. fold (element_label s).
  do 3 f_equal. rewrite <- Er. lia.
Qed.

Lemma match_at_reasoning : forall i p s,
  (heading_here (js "####") (js "Reasoning:") s = true ->
   exists w, match_at false re_reasoning i p s =
             Some (MR i w [(1, after_heading (js "####") (js "Reasoning:") s)]))
  /\ (heading_here (js "####") (js "Reasoning:") s = false ->
      match_at false re_reasoning i p s = None).
Proof.
  intros i p s. unfold match_at, re_reasoning.
  change (rmatch false
            (rlit (js "####") @@ RStar true (RSet is_ws) @@ rlit (js "Reasoning:")
             @@ RStar true (RSet is_ws)
             @@ RGroup 1 (RStar true (RSet cls_any))) Some (MS i p s []))
    with (rmatch false
            (rlit (js "####") @@ RStar true (RSet is_ws) @@ rlit (js "Reasoning:"))
            (rmatch false (RStar true (RSet is_ws)
                           @@ RGroup 1 (RStar true (RSet cls_any))) Some)
            (MS i p s [])).
  rewrite (rmatch_heading false (js "####") 82%N (js "easoning:")) by reflexivity.
  cbn [rest]. change (82%N :: js "easoning:") with (js "Reasoning:").
  destruct (heading_here (js "####") (js "Reasoning:") s); split;
    try discriminate; intros _; [|reflexivity].
  rewrite rmatch_greedy_group_tail. eexists.
  cbn [set_cap caps]. rewrite !fwd_caps. cbn [caps].
  rewrite run_len_any, firstn_all.
  rewrite !fwd_rest. cbn [rest]. rewrite <- drop_ws_run. reflexivity.
Qed.

Lemma trimmed_group_suggestion : forall s,
  trimmed_group (str_match false re_suggestion s) =
  Some (match section_body (js "####") (js "Suggestion:") at_reasoning s with
        | Some b => trim b
        | None => []
        end).
Proof.
  intros s.
  apply (trimmed_group_section (js "####") 83%N (js "uggestion:") stop_reasoning
           at_reasoning s); [reflexivity|apply stop_reasoning_spec].
Qed.

Lemma trimmed_group_reasoning : forall s,
  trimmed_group (str_match false re_reasoning s) =
  Some (match find_heading (js "####") (js "Reasoning:") s with
        | Some hs => trim (after_heading (js "####") (js "Reasoning:") hs)
        | None => []
        end).
Proof.
  intros s.
  apply (trimmed_group_heading false re_reasoning (js "####") (js "Reasoning:")
           (after_heading (js "####") (js "Reasoning:"))).
  apply match_at_reasoning.
Qed.

(** ** The extractor never fails, and what its fields are *)

Lemma each_element_cons : forall R m ms acc,
  each_element R (m :: ms) acc =
  (g <- group 1 m ;;
   let chunk := substring (index m + length (matched m))
                  (match ms with
                   | nextMatch :: _ => index nextMatch
                   | [] => length R
                   end) R in
   each_element R ms
     (if truthy (trim g)
         && (truthy (chunk_suggestion chunk) || truthy (chunk_reasoning chunk))
      then acc ++ [Build_Recommendation (trim g) (chunk_suggestion chunk)
                     (chunk_reasoning chunk)]
      else acc)).
Proof.
  intros R m ms acc. cbn [each_element].
  destruct (group 1 m) as [g|]; [|reflexivity]. cbn [bind].
  rewrite trimmed_group_suggestion, trimmed_group_reasoning. reflexivity.
Qed.

Lemma match_all_element_groups : forall s i p k m,
  In m (match_all_from true re_element i p s k) -> group 1 m <> None.
Proof.
  induction s as [|c s IH]; intros i p k m H.
  - destruct k; cbn [match_all_from] in H; [|contradiction].
    rewrite match_at_element in H.
    destruct (element_here i p []); [|contradiction].
    destruct H as [H|[]]. subst m. discriminate.
  - destruct k as [|k]; cbn [match_all_from] in H.
    + rewrite match_at_element in H.
      destruct (element_here i p (c :: s)).
      * destruct H as [H|H]; [subst m; discriminate|]. now apply IH in H.
      * now apply IH in H.
    + now apply IH in H.
Qed.

Lemma each_element_total : forall R ms acc,
  (forall m, In m ms -> group 1 m <> None) ->
  exists l, each_element R ms acc = Some l.
Proof.
  intros R ms. induction ms as [|m ms IH]; intros acc H.
  - now exists acc.
  - rewrite each_element_cons.
    destruct (group 1 m) as [g|] eqn:Eg.
    + cbn [bind]. apply IH. intros m' Hm'. apply H. now right.
    + exfalso. apply (H m); [now left|assumption].
Qed.

Lemma parse_fields : forall text,
  parseAnalysisFromText text =
  (recs <- recommendations_of text ;;
   Some (Build_ListingAnalysis
           (section_text (js "Overall Assessment") text)
           (section_text (js "Price Analysis") text)
           recs
           (match section_body (js "##") (js "Suggested SEO Tags (13)") at_h2 text with
            | Some b => keywords_of b
            | None => []
            end)
           None)).
Proof.
  intros text. unfold parseAnalysisFromText.
  change (match str_match false re_assessment text with
          | Some m => g <- group 1 m ;; Some (trim g)
          | None => Some []
          end) with (trimmed_group (str_match false re_assessment text)).
  change (match str_match false re_price text with
          | Some m => g <- group 1 m ;; Some (trim g)
          | None => Some []
          end) with (trimmed_group (str_match false re_price text)).
  unfold re_assessment, re_price, re_tags, re_recommendations.
  rewrite (trimmed_group_section (js "##") 79%N (js "verall Assessment") stop_h2 at_h2)
    by (reflexivity || apply stop_h2_spec).
  rewrite (trimmed_group_section (js "##") 80%N (js "rice Analysis") stop_h2 at_h2)
    by (reflexivity || apply stop_h2_spec).
  cbn [bind].
  rewrite (with_group_section _ (fun g => Some (keywords_of g)) (Some [])
             (js "##") 83%N (js "uggested SEO Tags (13)") stop_h2 at_h2)
    by (reflexivity || apply stop_h2_spec).
  rewrite (with_group_section _
             (fun R => each_element R (str_match_all true re_element R) [])
             (Some []) (js "##") 65%N (js "ctionable Recommendations") stop_tags at_tags)
    by (reflexivity || apply stop_tags_spec).
  unfold recommendations_of, section_text.
  change (79%N :: js "verall Assessment") with (js "Overall Assessment").
  change (80%N :: js "rice Analysis") with (js "Price Analysis").
  change (83%N :: js "uggested SEO Tags (13)") with (js "Suggested SEO Tags (13)").
  change (65%N :: js "ctionable Recommendations") with (js "Actionable Recommendations").
  destruct (section_body (js "##") (js "Suggested SEO Tags (13)") at_h2 text);
    cbn [bind]; reflexivity.
Qed.

Lemma recommendations_of_total : forall text,
  exists recs, recommendations_of text = Some recs.
Proof.
  intros text. unfold recommendations_of.
  destruct (section_body _ _ _ text) as [R|]; [|now exists []].
  apply each_element_total. intros m Hm.
  unfold str_match_all in Hm. now apply match_all_element_groups in Hm.
Qed.

Lemma parse_total : forall text, exists d, parseAnalysisFromText text = Some d.
Proof.
  intros text. rewrite parse_fields.
  destruct (recommendations_of_total text) as [recs Hr]. rewrite Hr.
  cbn [bind]. eexists. reflexivity.
Qed.

Lemma truthy_true : forall s, truthy s = true -> s <> [].
Proof. intros [|c s] H; [discriminate|discriminate]. Qed.

Lemma each_element_items_ok : forall R ms acc l,
  Forall item_ok acc -> each_element R ms acc = Some l -> Forall item_ok l.
Proof.
  intros R ms. induction ms as [|m ms IH]; intros acc l Hacc H.
  - inversion H; now subst.
  - rewrite each_element_cons in H.
    destruct (group 1 m) as [g|]; [|discriminate]. cbn [bind] in H.
    apply IH in H; [assumption|].
    destruct (truthy (trim g)) eqn:Eg; [|assumption]. cbn [andb].
    destruct (truthy (chunk_suggestion _) || truthy (chunk_reasoning _)) eqn:Ef;
      [|assumption].
    apply Forall_app. split; [assumption|]. constructor; [|constructor].
    split; cbn; [now apply truthy_true|].
    apply orb_true_iff in Ef as [Ef|Ef]; [left|right]; now apply truthy_true.
Qed.

(** On the values the callback computes the guard does its work: no item of
    any result has an empty element, and none has both fields empty. *)
Lemma recommendations_items_ok : forall text d,
  parseAnalysisFromText text = Some d -> Forall item_ok (recommendations d).
Proof.
  intros text d H. rewrite parse_fields in H.
  destruct (recommendations_of text) as [recs|] eqn:Er; [|discriminate].
  cbn [bind] in H. inversion H; subst d. cbn [recommendations].
  unfold recommendations_of in Er.
  destruct (section_body _ _ _ text) as [R|].
  - apply (each_element_items_ok R (str_match_all true re_element R) [] recs);
      [constructor|assumption].
  - inversion Er. constructor.
Qed.

(** ** Headings as propositions *)

Lemma drop_ws_split : forall s, exists w, all_ws w /\ s = w ++ drop_ws s.
Proof.
  induction s as [|c s [w [Hw E]]]; simpl.
  - exists []. split; [constructor|reflexivity].
  - destruct (is_ws c) eqn:Ec.
    + exists (c :: w). split; [now constructor|]. simpl. now f_equal.
    + exists []. split; [constructor|reflexivity].
Qed.

Lemma drop_ws_app_ws : forall w s, all_ws w -> drop_ws (w ++ s) = drop_ws s.
Proof.
  induction w as [|c w IH]; intros s H; simpl; [reflexivity|].
  inversion H; subst. rewrite H2. now apply IH.
Qed.

Lemma drop_ws_head : forall s c t, drop_ws s = c :: t -> is_ws c = false.
Proof.
  induction s as [|d s IH]; intros c t H; simpl in H; [discriminate|].
  destruct (is_ws d) eqn:Ed; [now apply IH in H|].
  inversion H; now subst.
Qed.

Lemma drop_ws_id : forall c t, is_ws c = false -> drop_ws (c :: t) = c :: t.
Proof. intros c t H. simpl. now rewrite H. Qed.

Lemma skipn_app_len : forall (a b : jsstring), skipn (length a) (a ++ b) = b.
Proof. induction a; simpl; auto. Qed.

Lemma heading_here_iff : forall h c0 n s,
  is_ws c0 = false ->
  (heading_here h (c0 :: n) s = true <-> begins_with_heading h (c0 :: n) s).
Proof.
  intros h c0 n s Hc0. unfold heading_here, begins_with_heading. split.
  - intros H. apply andb_true_iff in H as [H1 H2].
    apply starts_with_split in H1.
    destruct (drop_ws_split (skipn (length h) s)) as [w [Hw E]].
    apply starts_with_split in H2.
    exists w, (skipn (length (c0 :: n)) (drop_ws (skipn (length h) s))).
    split; [assumption|]. now rewrite <- H2, <- E.
  - intros [w [tl [Hw E]]]. subst s. rewrite starts_with_app, skipn_app_len.
    rewrite drop_ws_app_ws by assumption.
    change ((c0 :: n) ++ tl) with (c0 :: (n ++ tl)). rewrite drop_ws_id by assumption.
    change (c0 :: n ++ tl) with ((c0 :: n) ++ tl). now rewrite starts_with_app.
Qed.

Lemma find_heading_none : forall h n s,
  find_heading h n s = None <->
  (forall pre suf, s = pre ++ suf -> heading_here h n suf = false).
Proof.
  intros h n. induction s as [|c s IH]; simpl.
  - destruct (heading_here h n []) eqn:E; split.
    + discriminate.
    + intros H. specialize (H [] [] eq_refl). congruence.
    + intros _ pre suf Hs. symmetry in Hs. apply app_eq_nil in Hs as [_ ->].
      assumption.
    + reflexivity.
  - destruct (heading_here h n (c :: s)) eqn:E; split.
    + discriminate.
    + intros H. specialize (H [] (c :: s) eq_refl). congruence.
    + intros H pre suf Hs. destruct pre as [|d pre]; simpl in Hs.
      * now subst suf.
      * inversion Hs; subst. apply (proj1 IH H pre suf eq_refl).
    + intros H. apply IH. intros pre suf Hs. apply (H (c :: pre) suf).
      simpl. now f_equal.
Qed.

Lemma find_heading_none_iff : forall h c0 n s,
  is_ws c0 = false ->
  (find_heading h (c0 :: n) s = None <-> ~ contains_heading h (c0 :: n) s).
Proof.
  intros h c0 n s Hc0. rewrite find_heading_none. split.
  - intros H [pre [suf [E Hb]]]. apply heading_here_iff in Hb; [|assumption].
    rewrite (H pre suf E) in Hb. discriminate.
  - intros H pre suf E.
    destruct (heading_here h (c0 :: n) suf) eqn:Eh; [|reflexivity].
    exfalso. apply H. exists pre, suf. split; [assumption|].
    now apply heading_here_iff.
Qed.

Lemma find_heading_skip : forall h n c tl,
  no_heading_in h n c tl -> find_heading h n (c ++ tl) = find_heading h n tl.
Proof.
  intros h n. induction c as [|d c IH]; intros tl H; [reflexivity|].
  change ((d :: c) ++ tl) with (d :: (c ++ tl)). cbn [find_heading].
  pose proof (H 0 ltac:(simpl; lia)) as H0. cbn [skipn app] in H0. rewrite H0.
  apply IH. intros j Hj. apply (H (S j)). simpl. lia.
Qed.

Lemma find_heading_here : forall h n s,
  heading_here h n s = true -> find_heading h n s = Some s.
Proof. intros h n s H. destruct s; simpl; now rewrite H. Qed.

Lemma body_upto_skip : forall t c tl,
  no_stop_in t c tl -> body_upto t (c ++ tl) = c ++ body_upto t tl.
Proof.
  intros t. induction c as [|d c IH]; intros tl H; [reflexivity|].
  change ((d :: c) ++ tl) with (d :: (c ++ tl)). cbn [body_upto].
  pose proof (H 0 ltac:(simpl; lia)) as H0. cbn [skipn app] in H0. rewrite H0.
  cbn [app]. f_equal. apply IH. intros j Hj. apply (H (S j)). simpl. lia.
Qed.

Lemma body_upto_stop : forall t s, t s = true -> body_upto t s = [].
Proof. intros t s H. destruct s; simpl; [reflexivity|now rewrite H]. Qed.

Lemma find_heading_some : forall h n s hs,
  find_heading h n s = Some hs ->
  exists pre, s = pre ++ hs /\ heading_here h n hs = true
              /\ no_heading_in h n pre hs.
Proof.
  intros h n. induction s as [|c s IH]; intros hs H; simpl in H.
  - destruct (heading_here h n []) eqn:E; [|discriminate].
    inversion H; subst. exists []. repeat split; auto.
    intros j Hj. simpl in Hj. lia.
  - destruct (heading_here h n (c :: s)) eqn:E.
    + inversion H; subst. exists []. repeat split; auto.
      intros j Hj. simpl in Hj. lia.
    + destruct (IH hs H) as [pre [Es [Hh Hn]]]. exists (c :: pre).
      split; [simpl; now f_equal|]. split; [assumption|].
      intros [|j] Hj; simpl.
      * now rewrite <- Es.
      * apply Hn. simpl in Hj. lia.
Qed.

(** ** The patterns of the formatter *)

Lemma firstn_fwd : forall n x,
  firstn (idx (fwd n x) - idx x) (rest x) ++ rest (fwd n x) = rest x.
Proof.
  intros n x. pose proof (fwd_idx_rest n x) as H.
  pose proof (fwd_rest_le n x) as Hl.
  replace (idx (fwd n x) - idx x) with (length (rest x) - length (rest (fwd n x))) by lia.
  rewrite fwd_rest. rewrite length_skipn.
  replace (length (rest x) - (length (rest x) - n)) with (Nat.min n (length (rest x))) by lia.
  destruct (Nat.le_ge_cases n (length (rest x))) as [Hn|Hn].
  - rewrite Nat.min_l by assumption. apply firstn_skipn.
  - rewrite Nat.min_r by assumption. rewrite firstn_all, skipn_all2 by assumption.
    apply app_nil_r.
Qed.

Lemma match_at_newline : forall i p s,
  match_at false re_newline i p s =
  match s with
  | c :: _ => if N.eqb NL c then Some (MR i [NL] []) else None
  | [] => None
  end.
Proof.
  intros i p s. unfold match_at, re_newline. cbn [rmatch rest].
  destruct s as [|c t]; [reflexivity|].
  destruct (N.eqb NL c) eqn:E; [|reflexivity].
  apply N.eqb_eq in E. subst c. cbn [advance idx caps].
  replace (S i - i) with 1 by lia. reflexivity.
Qed.

Lemma star_not_ws_reject : forall k y c t,
  rest y = c :: t -> is_ws c = true ->
  rmatch false (RLookahead (RChar STAR)) k y = None.
Proof.
  intros k y c t E Hc. cbn [rmatch]. rewrite E.
  destruct (N.eqb STAR c) eqn:Ec; [|reflexivity].
  apply N.eqb_eq in Ec. subst c. discriminate.
Qed.

Lemma match_at_bullet_break : forall i p s,
  match_at false re_bullet_break i p s =
  option_map (fun n => MR i (firstn n s) []) (break_here s).
Proof.
  intros i p s. unfold match_at, re_bullet_break, break_here.
  change (rmatch false (RChar NL @@ RStar true (RSet is_ws) @@ RLookahead (RChar STAR))
            Some (MS i p s []))
    with (match s with
          | d :: t =>
              if N.eqb NL d
              then rmatch false (RStar true (RSet is_ws))
                     (rmatch false (RLookahead (RChar STAR)) Some)
                     (advance d t (MS i p s []))
              else None
          | [] => None
          end).
  destruct s as [|c s1]; [reflexivity|].
  destruct (N.eqb NL c) eqn:Ec; [|reflexivity].
  rewrite rmatch_star_greedy.
  rewrite (try_down_reject is_ws) by
    (try apply Nat.le_refl; intros y d t E Hd; now apply (star_not_ws_reject _ y d t)).
  cbn [rmatch]. rewrite fwd_rest. cbn [advance rest]. rewrite <- drop_ws_run.
  destruct (drop_ws s1) as [|d t] eqn:Ed; [reflexivity|].
  destruct (N.eqb STAR d); [|reflexivity].
  cbn [option_map idx caps advance]. rewrite fwd_caps. cbn [caps advance].
  rewrite fwd_idx by (cbn [rest advance]; apply run_len_le). cbn [idx advance].
  replace (S i + run_len is_ws s1 - i) with (S (run_len is_ws s1)) by lia.
  reflexivity.
Qed.

Lemma not_star_reject : forall g y c t,
  rest y = c :: t -> cls_not_star c = true ->
  rmatch false (rlit (js "**")) Some (set_cap 1 (g y) y) = None.
Proof.
  intros g y c t E Hc. rewrite rmatch_rlit. cbn [set_cap rest]. rewrite E.
  unfold cls_not_star in Hc. cbn [js list_ascii_of_string map starts_with].
  change (N_of_ascii "*") with STAR.
  destruct (N.eqb STAR c) eqn:Ec; [|reflexivity].
  rewrite N.eqb_sym in Ec. rewrite Ec in Hc. discriminate.
Qed.

Lemma firstn_app3 : forall (a b c d : jsstring) k,
  k = length a + length b + length c ->
  firstn k (a ++ b ++ c ++ d) = a ++ b ++ c.
Proof.
  intros a b c d k ->.
  replace (a ++ b ++ c ++ d) with ((a ++ b ++ c) ++ d) by (now rewrite <- !app_assoc).
  replace (length a + length b + length c) with (length (a ++ b ++ c) + 0)
    by (rewrite !length_app; lia).
  rewrite firstn_app_2. simpl. apply app_nil_r.
Qed.

Lemma match_at_bold : forall i p s,
  match_at false re_bold i p s =
  option_map (fun inner => MR i (js "**" ++ inner ++ js "**") [(1, inner)])
    (bold_here s).
Proof.
  intros i p s. unfold match_at, re_bold, bold_here.
  change (rmatch false
            (rlit (js "**") @@ RGroup 1 (RPlus true (RSet cls_not_star))
             @@ rlit (js "**")) Some (MS i p s []))
    with (rmatch false (rlit (js "**"))
            (fun y0 =>
               rmatch false (RPlus true (RSet cls_not_star))
                 (fun y => rmatch false (rlit (js "**")) Some
                             (set_cap 1 (firstn (idx y - idx y0) (rest y0)) y)) y0)
            (MS i p s [])).
  rewrite rmatch_rlit. cbn [rest].
  destruct (starts_with (js "**") s) eqn:Es; [|reflexivity].
  apply starts_with_split in Es.
  set (s1 := skipn 2 s) in *. change (length (js "**")) with 2 in *.
  fold s1 in Es.
  set (y0 := fwd 2 (MS i p s [])).
  assert (Ey0 : rest y0 = s1) by (unfold y0; now rewrite fwd_rest).
  assert (Iy0 : idx y0 = i + 2).
  { unfold y0. rewrite fwd_idx; [reflexivity|]. cbn [rest]. rewrite Es.
    rewrite length_app. simpl. lia. }
  rewrite rmatch_plus_greedy. rewrite Ey0.
  destruct s1 as [|c t] eqn:E1; [reflexivity|].
  cbn [run_len]. destruct (cls_not_star c) eqn:Ec; [|reflexivity].
  rewrite (try_down_reject cls_not_star) by
    (try apply Nat.le_refl; intros y d t' E Hd;
     apply (not_star_reject (fun y => firstn (idx y - idx y0) (c :: t)) y d t' E Hd)).
  set (n := run_len cls_not_star t).
  set (y1 := fwd n (advance c t y0)).
  assert (Ey1 : rest y1 = skipn n t) by (unfold y1; now rewrite fwd_rest).
  assert (Iy1 : idx y1 = idx y0 + S n).
  { unfold y1. rewrite fwd_idx; [simpl; lia|]. apply run_len_le. }
  rewrite rmatch_rlit. cbn [set_cap rest]. rewrite Ey1.
  change (Nat.ltb 0 (S n)) with true. cbn [andb skipn].
  destruct (starts_with (js "**") (skipn n t)) eqn:Ee; [|reflexivity].
  cbn [option_map]. f_equal.
  apply starts_with_split in Ee. change (length (js "**")) with 2 in Ee.
  assert (Cy1 : caps y1 = []).
  { unfold y1. rewrite fwd_caps. cbn [advance caps]. unfold y0. now rewrite fwd_caps. }
  rewrite fwd_caps. cbn [set_cap caps]. rewrite Cy1.
  replace (idx y1 - idx y0) with (S n) by lia.
  rewrite fwd_idx by (cbn [set_cap rest]; rewrite Ey1, Ee, length_app; simpl; lia).
  cbn [set_cap idx]. rewrite Iy1, Iy0.
  f_equal.
  assert (Hn : n <= length t) by apply run_len_le.
  assert (Ect : c :: t = firstn (S n) (c :: t) ++ js "**" ++ skipn 2 (skipn n t)).
  { rewrite <- Ee. symmetry. apply (firstn_skipn (S n) (c :: t)). }
  rewrite Es. rewrite Ect at 1.
  apply firstn_app3. rewrite length_firstn. simpl. lia.
Qed.

(** ** The passes of the formatter *)

Lemma Forall_skipn_js : forall (P : char -> Prop) n s,
  Forall P s -> Forall P (skipn n s).
Proof.
  induction n as [|n IH]; intros s H; [assumption|].
  destruct s as [|c s]; [constructor|]. inversion H; subst. now apply IH.
Qed.

Lemma Forall_firstn_js : forall (P : char -> Prop) n s,
  Forall P s -> Forall P (firstn n s).
Proof.
  induction n as [|n IH]; intros s H; [constructor|].
  destruct s as [|c s]; [constructor|]. inversion H; subst.
  simpl. constructor; auto.
Qed.

Lemma Forall_drop_ws : forall (P : char -> Prop) s,
  Forall P s -> Forall P (drop_ws s).
Proof.
  intros P s H. rewrite drop_ws_run. now apply Forall_skipn_js.
Qed.

Lemma Forall_trim : forall (P : char -> Prop) s, Forall P s -> Forall P (trim s).
Proof.
  intros P s H. unfold trim.
  apply Forall_rev, Forall_drop_ws, Forall_rev, Forall_drop_ws, H.
Qed.

Lemma replace_newline_br : forall s i p,
  replace_all_from false re_newline (fun _ => js "<br>") i p s 0 = br s.
Proof.
  induction s as [|c t IH]; intros i p; cbn [replace_all_from];
    rewrite match_at_newline; [reflexivity|].
  cbn [br flat_map]. destruct (N.eqb NL c).
  - cbn [matched length Nat.sub]. rewrite IH. reflexivity.
  - rewrite IH. reflexivity.
Qed.

Lemma br_no_newline : forall s, Forall (fun c => c <> NL) s -> br s = s.
Proof.
  induction s as [|c t IH]; intros H; [reflexivity|].
  inversion H; subst. cbn [br flat_map].
  destruct (N.eqb NL c) eqn:E.
  - apply N.eqb_eq in E. congruence.
  - cbn [app]. f_equal. now apply IH.
Qed.

Lemma br_has_no_newline : forall s, Forall (fun c => c <> NL) (br s).
Proof.
  induction s as [|c t IH]; [constructor|].
  cbn [br flat_map]. destruct (N.eqb NL c) eqn:E.
  - apply Forall_app. split; [|exact IH].
    repeat constructor; discriminate.
  - apply N.eqb_neq in E. constructor; [congruence|exact IH].
Qed.

Lemma br_no_star : forall s, no_star s -> no_star (br s).
Proof.
  induction s as [|c t IH]; intros H; [constructor|].
  inversion H; subst. cbn [br flat_map]. destruct (N.eqb NL c).
  - apply Forall_app. split; [|now apply IH].
    repeat constructor; discriminate.
  - constructor; [assumption|now apply IH].
Qed.

(** The bold pass changes nothing where no span starts. *)
Lemma replace_bold_id : forall f s i p,
  (forall j, bold_here (skipn j s) = None) ->
  replace_all_from false re_bold f i p s 0 = s.
Proof.
  intros f. induction s as [|c t IH]; intros i p H; cbn [replace_all_from];
    rewrite match_at_bold; pose proof (H 0) as H0; cbn [skipn] in H0; rewrite H0.
  - reflexivity.
  - cbn [option_map]. f_equal. apply IH.
    intros j. apply (H (S j)).
Qed.

Lemma bold_here_some : forall s inner,
  bold_here s = Some inner ->
  exists post, s = js "**" ++ inner ++ js "**" ++ post
               /\ inner <> [] /\ no_star inner.
Proof.
  intros s inner. unfold bold_here.
  destruct (starts_with (js "**") s) eqn:Es; [|discriminate].
  apply starts_with_split in Es. change (length (js "**")) with 2 in Es.
  set (s1 := skipn 2 s) in *. set (n := run_len cls_not_star s1).
  destruct (Nat.ltb 0 n) eqn:En; [|discriminate]. cbn [andb].
  destruct (starts_with (js "**") (skipn n s1)) eqn:Ee; [|discriminate].
  intros H. inversion H; subst inner. clear H.
  apply starts_with_split in Ee. change (length (js "**")) with 2 in Ee.
  exists (skipn 2 (skipn n s1)). split; [|split].
  - rewrite <- Ee, firstn_skipn. exact Es.
  - apply Nat.ltb_lt in En. intros Hf.
    apply (f_equal (@length char)) in Hf. rewrite length_firstn in Hf.
    pose proof (run_len_le cls_not_star s1). simpl in Hf. fold n in H. lia.
  - unfold n. clear. induction s1 as [|c t IH]; simpl; [constructor|].
    destruct (cls_not_star c) eqn:Ec; [|constructor].
    simpl. constructor; [|exact IH].
    unfold cls_not_star in Ec. intros ->. now rewrite N.eqb_refl in Ec.
Qed.

Lemma no_star_bold_here : forall s, no_star s -> bold_here s = None.
Proof.
  intros s H. unfold bold_here. destruct s as [|c t]; [reflexivity|].
  inversion H; subst. cbn [js list_ascii_of_string map starts_with].
  change (N_of_ascii "*") with STAR.
  destruct (N.eqb STAR c) eqn:E; [|reflexivity].
  apply N.eqb_eq in E. congruence.
Qed.

Lemma with_bold_no_star : forall s, no_star s -> with_bold s = s.
Proof.
  intros s H. unfold with_bold, str_replace_all. apply replace_bold_id.
  intros j. apply no_star_bold_here. now apply Forall_skipn_js.
Qed.

(** [split] at the bullet breaks. *)
Lemma break_here_bounds : forall s n,
  break_here s = Some n -> 1 <= n <= length s.
Proof.
  intros s n. unfold break_here. destruct s as [|c s1]; [discriminate|].
  destruct (N.eqb NL c); [|discriminate].
  destruct (drop_ws s1) as [|d t]; [discriminate|].
  destruct (N.eqb STAR d); [|discriminate].
  intros H. inversion H; subst. pose proof (run_len_le is_ws s1). simpl. lia.
Qed.

Lemma split_from_breaks : forall s i p acc k,
  split_from false re_bullet_break i p s acc k = split_breaks s acc k.
Proof.
  induction s as [|c t IH]; intros i p acc k; [reflexivity|].
  cbn [split_from split_breaks]. destruct k as [|k]; [|apply IH].
  rewrite match_at_bullet_break.
  destruct (break_here (c :: t)) as [n|] eqn:Eb; cbn [option_map].
  - apply break_here_bounds in Eb. destruct n as [|n]; [lia|].
    cbn [matched firstn]. rewrite IH. cbn [length].
    rewrite length_firstn. simpl in Eb.
    replace (S (Nat.min n (length t)) - 1) with (S n - 1) by lia.
    reflexivity.
  - apply IH.
Qed.

Lemma paragraphs_of_breaks : forall s,
  s <> [] -> paragraphs_of s = split_breaks s [] 0.
Proof.
  intros s H. unfold paragraphs_of, str_split.
  destruct s as [|c t]; [congruence|]. apply split_from_breaks.
Qed.

Lemma split_breaks_none : forall s acc,
  (forall j, break_here (skipn j s) = None) ->
  split_breaks s acc 0 = [rev acc ++ s].
Proof.
  induction s as [|c t IH]; intros acc H; cbn [split_breaks].
  - now rewrite app_nil_r.
  - pose proof (H 0) as H0. cbn [skipn] in H0. rewrite H0.
    rewrite IH by (intros j; apply (H (S j))).
    cbn [rev]. now rewrite <- app_assoc.
Qed.

Lemma no_star_break_here : forall s, no_star s -> break_here s = None.
Proof.
  intros s H. unfold break_here. destruct s as [|c s1]; [reflexivity|].
  destruct (N.eqb NL c); [|reflexivity].
  inversion H; subst. apply (Forall_drop_ws _ s1) in H3.
  destruct (drop_ws s1) as [|d t]; [reflexivity|].
  inversion H3; subst. destruct (N.eqb STAR d) eqn:E; [|reflexivity].
  apply N.eqb_eq in E. congruence.
Qed.

Lemma paragraphs_of_no_star : forall s,
  s <> [] -> no_star s -> paragraphs_of s = [s].
Proof.
  intros s Hs H. rewrite paragraphs_of_breaks by assumption.
  apply (split_breaks_none s []). intros j. apply no_star_break_here.
  now apply Forall_skipn_js.
Qed.

Lemma trim_ends : forall c m d,
  is_ws c = false -> is_ws d = false ->
  trim (c :: m ++ [d]) = c :: m ++ [d].
Proof.
  intros c m d Hc Hd. unfold trim. rewrite drop_ws_id by assumption.
  change (c :: m ++ [d]) with ((c :: m) ++ [d]).
  rewrite rev_unit. rewrite drop_ws_id by assumption.
  rewrite <- rev_unit. apply rev_involutive.
Qed.

Lemma html_paragraph_no_star : forall p,
  no_star p -> html_paragraph p = js "<p>" ++ br (trim p) ++ js "</p>".
Proof.
  intros p H. unfold html_paragraph.
  pose proof (Forall_trim _ p H) as Ht.
  destruct (trim p) as [|c t] eqn:E.
  - reflexivity.
  - inversion Ht; subst. cbn [js list_ascii_of_string map starts_with].
    change (N_of_ascii "*") with STAR.
    destruct (N.eqb STAR c) eqn:Ec; [apply N.eqb_eq in Ec; congruence|].
    cbn [andb]. unfold str_replace_all. now rewrite replace_newline_br.
Qed.

(** A text without asterisks becomes one paragraph. *)
Lemma format_no_star : forall x,
  x <> [] -> no_star x ->
  formatAIResponseWithAsterisks x = js "<p>" ++ br (trim x) ++ js "</p>".
Proof.
  intros x Hx H. unfold formatAIResponseWithAsterisks.
  destruct x as [|c t]; [congruence|]. cbn [truthy negb].
  rewrite with_bold_no_star by assumption.
  rewrite paragraphs_of_no_star by assumption.
  cbn [map concat]. rewrite app_nil_r. now apply html_paragraph_no_star.
Qed.

Lemma run_len_no_star : forall inner tl,
  no_star inner -> run_len cls_not_star (inner ++ STAR :: tl) = length inner.
Proof.
  induction inner as [|c t IH]; intros tl H; [reflexivity|].
  inversion H; subst. cbn [app run_len]. unfold cls_not_star at 1.
  destruct (N.eqb c STAR) eqn:E; [apply N.eqb_eq in E; congruence|].
  cbn [negb length]. f_equal. now apply IH.
Qed.

Lemma bold_here_complete : forall inner post,
  inner <> [] -> no_star inner ->
  bold_here (js "**" ++ inner ++ js "**" ++ post) = Some inner.
Proof.
  intros inner post Hne Hns. unfold bold_here.
  rewrite starts_with_app.
  change (skipn 2 (js "**" ++ inner ++ js "**" ++ post))
    with (inner ++ STAR :: STAR :: post).
  rewrite run_len_no_star by assumption.
  destruct inner as [|c t]; [congruence|].
  change (Nat.ltb 0 (length (c :: t))) with true. cbn [andb].
  rewrite skipn_app_len.
  change (STAR :: STAR :: post) with (js "**" ++ post).
  rewrite starts_with_app.
  now rewrite firstn_app, Nat.sub_diag, firstn_all, app_nil_r.
Qed.

Lemma no_bold_span_here : forall t,
  no_bold_span t <-> (forall j, bold_here (skipn j t) = None).
Proof.
  intros t. split.
  - intros H j. destruct (bold_here (skipn j t)) as [inner|] eqn:E; [|reflexivity].
    apply bold_here_some in E as [post [Es [Hne Hns]]].
    destruct (H (firstn j t) inner post) as [H1|H1]; [|congruence|contradiction].
    now rewrite <- Es, firstn_skipn.
  - intros H pre inner post Et.
    destruct inner as [|c i']; [now left|]. right. intros Hns.
    specialize (H (length pre)). rewrite Et, skipn_app_len in H.
    rewrite bold_here_complete in H; [discriminate|discriminate|assumption].
Qed.

Lemma bold_free_spec : forall t, bold_free t = true -> no_bold_span t.
Proof.
  intros t H. apply no_bold_span_here. intros j.
  unfold bold_free in H. rewrite forallb_forall in H.
  destruct (Nat.le_gt_cases j (length t)) as [Hj|Hj].
  - specialize (H j). rewrite in_seq in H.
    destruct (bold_here (skipn j t)); [|reflexivity].
    discriminate H. lia.
  - rewrite skipn_all2 by lia. reflexivity.
Qed.

Lemma with_bold_no_span : forall t, no_bold_span t -> with_bold t = t.
Proof.
  intros t H. unfold with_bold, str_replace_all. apply replace_bold_id.
  now apply no_bold_span_here.
Qed.

Lemma break_here_not_nl : forall c t, c <> NL -> break_here (c :: t) = None.
Proof.
  intros c t H. unfold break_here. destruct (N.eqb NL c) eqn:E; [|reflexivity].
  apply N.eqb_eq in E. congruence.
Qed.

Lemma split_breaks_line : forall a tl acc,
  Forall (fun c => c <> NL) a ->
  split_breaks (a ++ tl) acc 0 = split_breaks tl (rev a ++ acc) 0.
Proof.
  induction a as [|c a IH]; intros tl acc H; [reflexivity|].
  inversion H; subst. cbn [app split_breaks].
  rewrite break_here_not_nl by assumption. rewrite IH by assumption.
  cbn [rev]. now rewrite <- app_assoc.
Qed.

Lemma split_breaks_skip : forall w tl acc,
  split_breaks (w ++ tl) acc (length w) =
  match w with [] => split_breaks tl acc 0 | _ :: _ => split_breaks tl [] 0 end.
Proof.
  induction w as [|c w IH]; intros tl acc; [reflexivity|].
  cbn [app length split_breaks]. rewrite IH. now destruct w.
Qed.

Lemma run_len_ws_app : forall w c tl,
  all_ws w -> is_ws c = false -> run_len is_ws (w ++ c :: tl) = length w.
Proof.
  induction w as [|d w IH]; intros c tl H Hc; simpl.
  - now rewrite Hc.
  - inversion H; subst. rewrite H2. f_equal. now apply IH.
Qed.

(** A single line, then a newline, whitespace and an asterisk: the line is a
    piece of its own, and the separator is the newline with the whitespace. *)
Lemma paragraphs_of_split : forall a w b,
  Forall (fun c => c <> NL) a -> all_ws w ->
  paragraphs_of (a ++ nl ++ w ++ STAR :: b) = a :: paragraphs_of (STAR :: b).
Proof.
  intros a w b Ha Hw.
  rewrite paragraphs_of_breaks by (destruct a; discriminate).
  rewrite paragraphs_of_breaks by discriminate.
  rewrite split_breaks_line by assumption.
  change (nl ++ w ++ STAR :: b) with (NL :: (w ++ STAR :: b)).
  cbn [split_breaks]. unfold break_here. rewrite N.eqb_refl.
  rewrite drop_ws_app_ws by assumption.
  rewrite drop_ws_id by reflexivity. rewrite N.eqb_refl.
  rewrite run_len_ws_app by (assumption || reflexivity).
  rewrite app_nil_r, rev_involutive. f_equal.
  replace (S (length w) - 1) with (length w) by lia.
  rewrite split_breaks_skip. now destruct w.
Qed.

Lemma br_length : forall s, length s <= length (br s).
Proof.
  induction s as [|c s IH]; [simpl; lia|].
  cbn [br flat_map]. rewrite length_app. fold (br s).
  destruct (N.eqb NL c); simpl; lia.
Qed.

Lemma trim_paragraph : forall m,
  trim (js "<p>" ++ m ++ js "</p>") = js "<p>" ++ m ++ js "</p>".
Proof.
  intros m.
  change (js "<p>" ++ m ++ js "</p>") with (60%N :: (js "p>" ++ m ++ js "</p>")).
  replace (js "p>" ++ m ++ js "</p>") with ((js "p>" ++ m ++ js "</p") ++ [62%N])
    by (now rewrite <- !app_assoc).
  apply trim_ends; reflexivity.
Qed.

(** ** Sections as cuts of the text *)

Lemma after_heading_cut : forall h c0 n w1 w2 tl,
  is_ws c0 = false -> all_ws w1 -> all_ws w2 ->
  after_heading h (c0 :: n) (h ++ w1 ++ (c0 :: n) ++ w2 ++ tl) = drop_ws tl.
Proof.
  intros h c0 n w1 w2 tl Hc0 H1 H2. unfold after_heading.
  rewrite skipn_app_len. rewrite drop_ws_app_ws by assumption.
  change ((c0 :: n) ++ w2 ++ tl) with (c0 :: (n ++ w2 ++ tl)).
  rewrite drop_ws_id by assumption.
  change (c0 :: n ++ w2 ++ tl) with ((c0 :: n) ++ w2 ++ tl).
  rewrite skipn_app_len. now apply drop_ws_app_ws.
Qed.

Lemma section_cut_body : forall h c0 n t text body,
  is_ws c0 = false ->
  section_cut h (c0 :: n) t text body ->
  section_body h (c0 :: n) t text = Some body.
Proof.
  intros h c0 n t text body Hc0
    [pre [w1 [w2 [post [Et [H1 [H2 [Hpre [Hb [Hns Hpost]]]]]]]]]].
  subst text. unfold section_body.
  rewrite find_heading_skip by assumption.
  rewrite find_heading_here
    by (apply heading_here_iff; [assumption|]; exists w1, (w2 ++ body ++ post); auto).
  rewrite after_heading_cut by assumption. rewrite Hb.
  rewrite body_upto_skip by assumption. f_equal.
  destruct Hpost as [->|Hp]; [apply app_nil_r|].
  rewrite body_upto_stop by assumption. apply app_nil_r.
Qed.

Lemma parse_some_fields : forall text d,
  parseAnalysisFromText text = Some d ->
  overall_assessment d = section_text (js "Overall Assessment") text
  /\ price_analysis d = section_text (js "Price Analysis") text
  /\ recommendations_of text = Some (recommendations d)
  /\ suggested_keywords d =
     match section_body (js "##") (js "Suggested SEO Tags (13)") at_h2 text with
     | Some b => keywords_of b
     | None => []
     end.
Proof.
  intros text d H. rewrite parse_fields in H.
  destruct (recommendations_of text) as [recs|]; [|discriminate].
  cbn [bind] in H. inversion H; subst d. cbn. auto.
Qed.

(** ** The keywords *)

Lemma exec_from_bol_later : forall r s i p,
  0 < i -> exec_from false (RBol @@ r) i p s = None.
Proof.
  intros r. induction s as [|c s IH]; intros i p Hi; cbn [exec_from].
  - unfold match_at. cbn [rmatch idx].
    rewrite (proj2 (Nat.eqb_neq i 0)) by lia. reflexivity.
  - unfold match_at. cbn [rmatch idx].
    rewrite (proj2 (Nat.eqb_neq i 0)) by lia. cbn [orb andb].
    apply IH. lia.
Qed.

Lemma replace_leading_hyphen : forall kw,
  str_replace_first false re_leading_hyphen (fun _ => []) kw = strip_marker kw.
Proof.
  intros kw. unfold str_replace_first, str_match, re_leading_hyphen, strip_marker.
  destruct kw as [|c t]; [reflexivity|].
  cbn [exec_from]. unfold match_at. cbn [rmatch idx rest Nat.eqb orb].
  rewrite N.eqb_sym.
  destruct (N.eqb c HYPHEN) eqn:E.
  - cbn [advance idx caps index matched length firstn skipn Nat.sub Nat.add app].
    reflexivity.
  - rewrite exec_from_bol_later by lia. reflexivity.
Qed.

Lemma keywords_of_spec : forall body,
  keywords_of body = spec_keywords (split_char NL body).
Proof.
  intros body. unfold keywords_of.
  induction (split_char NL body) as [|l ls IH]; [reflexivity|].
  cbn [map filter spec_keywords]. rewrite replace_leading_hyphen.
  destruct (trim (strip_marker l)) as [|c k] eqn:E; cbn [truthy].
  - exact IH.
  - cbn [map]. rewrite IH. unfold substring. cbn [Nat.min Nat.max Nat.sub skipn].
    reflexivity.
Qed.

Lemma spec_keywords_bounds : forall ls,
  Forall (fun k => 1 <= length k <= 20) (spec_keywords ls).
Proof.
  induction ls as [|l ls IH]; [constructor|].
  cbn [spec_keywords]. destruct (trim (strip_marker l)) as [|c k] eqn:E; [exact IH|].
  constructor; [|exact IH].
  rewrite length_firstn. cbn [length]. lia.
Qed.

(** ** Where the patterns match *)


Lemma check_no_stop_spec : forall t c tl,
  check_no_stop t c tl = true -> no_stop_in t c tl.
Proof.
  intros t c tl H j Hj. unfold check_no_stop in H. rewrite forallb_forall in H.
  specialize (H j). rewrite in_seq in H.
  apply negb_true_iff. apply H. lia.
Qed.

Lemma check_no_heading_spec : forall h n c tl,
  check_no_stop (heading_here h n) c tl = true -> no_heading_in h n c tl.
Proof. intros h n c tl H. now apply check_no_stop_spec. Qed.


(** The same facts for a name given as a whole. *)
Lemma absent_heading_not_found : forall h name s,
  head_not_ws name ->
  ~ contains_heading h name s -> find_heading h name s = None.
Proof.
  intros h [|c0 n] s Hn H; [contradiction|]. now apply find_heading_none_iff.
Qed.

Lemma not_found_absent_heading : forall h name s,
  head_not_ws name ->
  find_heading h name s = None -> ~ contains_heading h name s.
Proof.
  intros h [|c0 n] s Hn H; [contradiction|]. now apply find_heading_none_iff.
Qed.

Lemma section_cut_gives_body : forall h name t text body,
  head_not_ws name ->
  section_cut h name t text body -> section_body h name t text = Some body.
Proof.
  intros h [|c0 n] t text body Hn H; [contradiction|]. now apply section_cut_body.
Qed.

Lemma section_group_is_body : forall h name stop t s,
  head_not_ws name -> stop_spec stop t ->
  match str_match false (re_section h name stop) s with
  | Some m => group 1 m
  | None => None
  end = section_body h name t s.
Proof.
  intros h [|c0 n] stop t s Hn Hs; [contradiction|].
  now apply (str_match_section_group h c0 n stop t).
Qed.



(** ** Every section has a cut *)

Lemma drop_ws_idem : forall s, drop_ws (drop_ws s) = drop_ws s.
Proof.
  induction s as [|c s IH]; simpl; [reflexivity|].
  destruct (is_ws c) eqn:E; [exact IH|]. simpl. now rewrite E.
Qed.

Lemma body_upto_split : forall t s,
  s = body_upto t s ++ skipn (length (body_upto t s)) s.
Proof.
  intros t. induction s as [|c s IH]; [reflexivity|]. simpl.
  destruct (t (c :: s)); [reflexivity|]. simpl. now f_equal.
Qed.

Lemma body_upto_no_stop : forall t s,
  no_stop_in t (body_upto t s) (skipn (length (body_upto t s)) s).
Proof.
  intros t s j Hj. rewrite <- body_upto_split. revert j Hj.
  induction s as [|c s IH]; intros j Hj; simpl in Hj.
  - lia.
  - destruct (t (c :: s)) eqn:E; simpl in Hj; [lia|].
    destruct j as [|j]; [exact E|]. cbn [skipn]. apply IH. lia.
Qed.

Lemma body_upto_rest : forall t s,
  skipn (length (body_upto t s)) s = []
  \/ t (skipn (length (body_upto t s)) s) = true.
Proof.
  intros t. induction s as [|c s IH]; simpl; [now left|].
  destruct (t (c :: s)) eqn:E; simpl; [now right|exact IH].
Qed.


(** ** Trimming *)

Lemma drop_ws_length : forall s, length (drop_ws s) <= length s.
Proof.
  induction s as [|c s IH]; simpl; [lia|]. destruct (is_ws c); simpl; lia.
Qed.

Lemma trim_length : forall s, length (trim s) <= length (drop_ws s).
Proof.
  intros s. unfold trim. rewrite length_rev.
  etransitivity; [apply drop_ws_length|]. now rewrite length_rev.
Qed.

Lemma trim_head_not_ws : forall c t, trim (c :: t) = c :: t -> is_ws c = false.
Proof.
  intros c t H. destruct (is_ws c) eqn:E; [|reflexivity]. exfalso.
  pose proof (trim_length (c :: t)) as Hl. rewrite H in Hl.
  simpl in Hl. rewrite E in Hl. pose proof (drop_ws_length t). lia.
Qed.

Lemma drop_ws_all_ws : forall w, all_ws w -> drop_ws w = [].
Proof.
  intros w H. rewrite <- (app_nil_r w). now rewrite drop_ws_app_ws.
Qed.

Lemma all_ws_rev : forall w, all_ws w -> all_ws (rev w).
Proof. intros w H. now apply Forall_rev. Qed.

Lemma skipn_cons_inside : forall j (a tl : jsstring),
  j < length a -> exists c t, skipn j (a ++ tl) = c :: t /\ In c a.
Proof.
  induction j as [|j IH]; intros a tl Hj; destruct a as [|d a]; simpl in Hj; try lia.
  - exists d, (a ++ tl). split; [reflexivity|now left].
  - destruct (IH a tl ltac:(lia)) as [c [t [E Hin]]].
    exists c, t. split; [exact E|now right].
Qed.

(** A heading that starts with a hash cannot start inside a text without
    hashes. *)
Lemma no_heading_hash_free : forall h n a tl,
  Forall (fun c => c <> HASH) a ->
  no_heading_in (HASH :: h) n a tl.
Proof.
  intros h n a tl Ha j Hj.
  destruct (skipn_cons_inside j a tl Hj) as [c [t [E Hin]]]. rewrite E.
  unfold heading_here. cbn [starts_with].
  rewrite Forall_forall in Ha. specialize (Ha c Hin).
  destruct (N.eqb HASH c) eqn:Ec; [|reflexivity].
  apply N.eqb_eq in Ec. congruence.
Qed.

(** ** A sequence of blocks *)






(** ** More on the formatter *)

Lemma Forall_concat_js : forall (P : char -> Prop) (l : list jsstring),
  Forall (Forall P) l -> Forall P (concat l).
Proof.
  intros P l H. induction H as [|x l Hx _ IH]; cbn [concat]; [constructor|].
  apply Forall_app. split; assumption.
Qed.

Lemma html_paragraph_shape : forall p,
  exists body, html_paragraph p = js "<p>" ++ br body ++ js "</p>".
Proof.
  intros p. unfold html_paragraph, str_replace_all.
  rewrite replace_newline_br. eexists. reflexivity.
Qed.

Lemma html_paragraph_no_newline : forall p,
  Forall (fun c => c <> NL) (html_paragraph p).
Proof.
  intros p. destruct (html_paragraph_shape p) as [b ->].
  apply Forall_app. split; [repeat constructor; discriminate|].
  apply Forall_app. split; [apply br_has_no_newline|].
  repeat constructor; discriminate.
Qed.

Lemma split_from_not_nil : forall ml r s i p acc k,
  split_from ml r i p s acc k <> [].
Proof.
  intros ml r. induction s as [|c t IH]; intros i p acc k; cbn [split_from].
  - discriminate.
  - destruct k as [|n]; [|apply IH].
    destruct (match_at ml r i p (c :: t)) as [m|]; [|apply IH].
    destruct (matched m); destruct acc; try discriminate. apply IH.
Qed.

Lemma paragraphs_of_not_nil : forall s, paragraphs_of s <> [].
Proof.
  intros s. unfold paragraphs_of, str_split. destruct s as [|c t].
  - rewrite match_at_bullet_break. cbn. discriminate.
  - apply split_from_not_nil.
Qed.

Lemma concat_wrapped : forall (A B : jsstring) (l : list jsstring),
  l <> [] ->
  (forall e, In e l -> exists b, e = A ++ b ++ B) ->
  exists m, concat l = A ++ m ++ B.
Proof.
  intros A B. induction l as [|e l IH]; intros Hne Hall; [congruence|].
  destruct (Hall e (or_introl eq_refl)) as [b ->].
  destruct l as [|e' l'].
  - exists b. cbn [concat]. rewrite app_nil_r. reflexivity.
  - destruct IH as [m Hm]; [discriminate|intros x Hx; apply Hall; right; exact Hx|].
    exists (b ++ B ++ A ++ m).
    change (concat ((A ++ b ++ B) :: e' :: l')) with ((A ++ b ++ B) ++ concat (e' :: l')).
    rewrite Hm. rewrite <- !app_assoc. reflexivity.
Qed.

(** The bold pass does not depend on the position it is run from. *)
Lemma replace_bold_pass : forall s i p k,
  replace_all_from false re_bold
    (fun m => js "<strong>" ++ subst_group 1 m ++ js "</strong>") i p s k
  = bold_pass s k.
Proof.
  induction s as [|c t IH]; intros i p k.
  - destruct k; cbn [replace_all_from bold_pass]; [|reflexivity].
    rewrite match_at_bold. cbn. reflexivity.
  - destruct k as [|n]; cbn [replace_all_from bold_pass]; [|apply IH].
    rewrite match_at_bold. destruct (bold_here (c :: t)) as [inner|] eqn:E.
    + cbn [option_map matched]. rewrite IH.
      assert (L : length (js "**" ++ inner ++ js "**") - 1 = length inner + 3).
      { rewrite !length_app. cbn [length js]. cbn. lia. }
      rewrite L. cbn [app js]. reflexivity.
    + cbn [option_map]. rewrite IH. reflexivity.
Qed.

Lemma with_bold_pass : forall s, with_bold s = bold_pass s 0.
Proof. intros s. unfold with_bold, str_replace_all. apply replace_bold_pass. Qed.

Lemma bold_here_not_star : forall c t, c <> STAR -> bold_here (c :: t) = None.
Proof.
  intros c t H. unfold bold_here. change (js "**") with [STAR; STAR].
  cbn [starts_with].
  destruct (N.eqb STAR c) eqn:E; [|reflexivity].
  apply N.eqb_eq in E. congruence.
Qed.

Lemma bold_here_single_star : forall c t, c <> STAR -> bold_here (STAR :: c :: t) = None.
Proof.
  intros c t H. unfold bold_here. change (js "**") with [STAR; STAR].
  cbn [starts_with]. rewrite N.eqb_refl. cbn [andb].
  destruct (N.eqb STAR c) eqn:E; [|reflexivity].
  apply N.eqb_eq in E. congruence.
Qed.

Lemma bold_pass_plain : forall pre tl,
  no_star pre -> bold_pass (pre ++ tl) 0 = pre ++ bold_pass tl 0.
Proof.
  induction pre as [|c t IH]; intros tl H; [reflexivity|].
  inversion H; subst. cbn [app]. cbn [bold_pass].
  rewrite bold_here_not_star by assumption. f_equal. now apply IH.
Qed.

Lemma bold_pass_skip : forall a tl, bold_pass (a ++ tl) (length a) = bold_pass tl 0.
Proof.
  induction a as [|c t IH]; intros tl; [reflexivity|].
  cbn [app length bold_pass]. apply IH.
Qed.

Lemma bold_pass_0 : forall s,
  bold_pass s 0 =
  match bold_here s with
  | Some inner =>
      (js "<strong>" ++ inner ++ js "</strong>")
      ++ match s with
         | _ :: t => bold_pass t (length inner + 3)
         | [] => []
         end
  | None =>
      match s with
      | c :: t => c :: bold_pass t 0
      | [] => []
      end
  end.
Proof. intros s. destruct s; reflexivity. Qed.

Lemma bold_pass_span : forall inner post,
  inner <> [] -> no_star inner ->
  bold_pass (js "**" ++ inner ++ js "**" ++ post) 0
  = js "<strong>" ++ inner ++ js "</strong>" ++ bold_pass post 0.
Proof.
  intros inner post Hne Hns.
  pose proof (bold_here_complete inner post Hne Hns) as Hb.
  rewrite bold_pass_0, Hb.
  change (js "**" ++ inner ++ js "**" ++ post)
    with (STAR :: (STAR :: inner ++ js "**" ++ post)).
  cbv iota.
  assert (E : STAR :: inner ++ js "**" ++ post = (STAR :: inner ++ js "**") ++ post).
  { cbn [app]. rewrite <- app_assoc. reflexivity. }
  rewrite E.
  assert (L : length inner + 3 = length (STAR :: inner ++ js "**")).
  { cbn [length]. rewrite length_app. cbn. lia. }
  rewrite L, bold_pass_skip. rewrite <- !app_assoc. reflexivity.
Qed.

Lemma with_bold_span : forall pre inner post,
  no_star pre -> inner <> [] -> no_star inner ->
  with_bold (pre ++ js "**" ++ inner ++ js "**" ++ post)
  = pre ++ js "<strong>" ++ inner ++ js "</strong>" ++ with_bold post.
Proof.
  intros pre inner post Hp Hne Hi. rewrite !with_bold_pass.
  rewrite bold_pass_plain by exact Hp. now rewrite bold_pass_span.
Qed.

(** *** Bullet lists *)

Lemma bold_pass_bullet_line : forall it tl,
  no_star it -> bold_pass (bullet_line it ++ tl) 0 = bullet_line it ++ bold_pass tl 0.
Proof.
  intros it tl H. unfold bullet_line.
  change (js "* ") with [STAR; 32%N]. cbn [app].
  cbn [bold_pass]. rewrite bold_here_single_star by discriminate.
  rewrite bold_here_not_star by discriminate.
  f_equal. f_equal. now apply bold_pass_plain.
Qed.

Lemma with_bold_bullets : forall items,
  Forall plain_item items ->
  with_bold (join_lines (map bullet_line items)) = join_lines (map bullet_line items).
Proof.
  intros items H. rewrite with_bold_pass.
  induction H as [|it l Hit Hl IH]; [reflexivity|].
  destruct Hit as (_ & _ & Hs & _).
  destruct l as [|it' l'].
  - cbn [map join_lines].
    rewrite <- (app_nil_r (bullet_line it)) at 1.
    rewrite bold_pass_bullet_line by exact Hs. cbn [bold_pass]. cbn.
    now rewrite app_nil_r.
  - change (join_lines (map bullet_line (it :: it' :: l')))
      with (bullet_line it ++ nl ++ join_lines (map bullet_line (it' :: l'))).
    rewrite bold_pass_bullet_line by exact Hs.
    rewrite bold_pass_plain by (repeat constructor; discriminate).
    rewrite IH. reflexivity.
Qed.

Lemma bullet_line_no_newline : forall it,
  plain_item it -> Forall (fun c => c <> NL) (bullet_line it).
Proof.
  intros it (_ & _ & _ & H). unfold bullet_line.
  apply Forall_app. split; [repeat constructor; discriminate|exact H].
Qed.

Lemma paragraphs_of_bullets : forall items,
  items <> [] -> Forall plain_item items ->
  paragraphs_of (join_lines (map bullet_line items)) = map bullet_line items.
Proof.
  intros items Hne H. induction H as [|it l Hit Hl IH]; [congruence|].
  destruct l as [|it' l'].
  - cbn [map join_lines]. rewrite paragraphs_of_breaks.
    + rewrite <- (app_nil_r (bullet_line it)) at 1.
      rewrite split_breaks_line by now apply bullet_line_no_newline.
      cbn [split_breaks]. now rewrite app_nil_r, rev_involutive.
    + unfold bullet_line. discriminate.
  - change (join_lines (map bullet_line (it :: it' :: l')))
      with (bullet_line it ++ nl ++ join_lines (map bullet_line (it' :: l'))).
    assert (E : exists b, join_lines (map bullet_line (it' :: l')) = STAR :: b).
    { cbn [map]. destruct (map bullet_line l'); cbn [join_lines]; unfold bullet_line;
        eexists; reflexivity. }
    destruct E as [b E].
    rewrite E. change (nl ++ STAR :: b) with (nl ++ [] ++ STAR :: b).
    rewrite (paragraphs_of_split (bullet_line it) [] b);
      [|now apply bullet_line_no_newline|constructor].
    rewrite <- E, IH by discriminate. reflexivity.
Qed.

Lemma trim_last_not_ws : forall m d, trim (m ++ [d]) = m ++ [d] -> is_ws d = false.
Proof.
  intros m d H. unfold trim in H.
  apply (f_equal (@rev char)) in H. rewrite rev_involutive, rev_app_distr in H.
  cbn [rev app] in H. exact (drop_ws_head _ _ _ H).
Qed.

Lemma trim_drop_ws : forall w s, all_ws w -> trim (w ++ s) = trim s.
Proof. intros w s H. unfold trim. now rewrite drop_ws_app_ws. Qed.

Lemma html_paragraph_bullet : forall it,
  plain_item it -> html_paragraph (bullet_line it) = js "<p>" ++ it ++ js "</p>".
Proof.
  intros it Hit. destruct Hit as (Hne & Ht & _ & Hn).
  unfold html_paragraph, str_replace_all. rewrite replace_newline_br.
  destruct (exists_last Hne) as (m & d & E).
  assert (Hd : is_ws d = false) by (rewrite E in Ht; exact (trim_last_not_ws m d Ht)).
  assert (T : trim (bullet_line it) = bullet_line it).
  { unfold bullet_line. rewrite E. change (js "* ") with [STAR; 32%N].
    change ([STAR; 32%N] ++ m ++ [d]) with (STAR :: (32%N :: m) ++ [d]).
    now apply trim_ends. }
  rewrite T. unfold bullet_line at 1. change (js "* ") with [STAR; 32%N].
  change (js "*") with [STAR].
  cbn [app starts_with]. rewrite N.eqb_refl. cbn [andb].
  unfold bullet_line, substring_from. change (js "* ") with [STAR; 32%N].
  cbn [app skipn].
  change (32%N :: it) with ([32%N] ++ it).
  rewrite trim_drop_ws by (repeat constructor).
  rewrite Ht, br_no_newline by exact Hn. reflexivity.
Qed.

Lemma format_bullets : forall items,
  items <> [] -> Forall plain_item items ->
  formatAIResponseWithAsterisks (join_lines (map bullet_line items))
  = concat (map (fun it => js "<p>" ++ it ++ js "</p>") items).
Proof.
  intros items Hne H. unfold formatAIResponseWithAsterisks.
  assert (T : truthy (join_lines (map bullet_line items)) = true).
  { destruct items as [|it l]; [congruence|]. cbn [map].
    destruct (map bullet_line l); reflexivity. }
  rewrite T. cbn [negb].
  rewrite with_bold_bullets, paragraphs_of_bullets by assumption.
  rewrite map_map. f_equal.
  clear Hne T. induction H as [|it l Hit _ IH]; [reflexivity|].
  cbn [map]. rewrite html_paragraph_bullet by exact Hit. now rewrite IH.
Qed.

(** ** More on trimming and on the parser *)

Lemma trim_all_ws : forall w, all_ws w -> trim w = [].
Proof. intros w H. unfold trim. rewrite (drop_ws_all_ws w H). reflexivity. Qed.

(** The string is its trimmed form between two runs of whitespace. *)
Lemma trim_infix : forall s,
  exists w1 w2, all_ws w1 /\ all_ws w2 /\ s = w1 ++ trim s ++ w2.
Proof.
  intros s. destruct (drop_ws_split s) as (w1 & H1 & E1).
  destruct (drop_ws_split (rev (drop_ws s))) as (w2 & H2 & E2).
  exists w1, (rev w2). split; [exact H1|]. split; [now apply all_ws_rev|].
  unfold trim. rewrite <- rev_app_distr, <- E2, rev_involutive. exact E1.
Qed.

Lemma trim_idem : forall s, trim (trim s) = trim s.
Proof.
  intros s. unfold trim at 2.
  set (a := drop_ws s).
  assert (Ha : drop_ws a = a) by apply drop_ws_idem.
  set (b := drop_ws (rev a)).
  assert (Hb : drop_ws b = b) by apply drop_ws_idem.
  assert (Hr : drop_ws (rev b) = rev b).
  { destruct (drop_ws_split (rev a)) as (w & Hw & E). fold b in E.
    apply (f_equal (@rev char)) in E. rewrite rev_involutive, rev_app_distr in E.
    destruct (rev b) as [|c t] eqn:Eb; [reflexivity|].
    cbn [app] in E. rewrite E in Ha.
    destruct (is_ws c) eqn:Ec.
    - exfalso. cbn [drop_ws] in Ha. rewrite Ec in Ha.
      pose proof (drop_ws_length (t ++ rev w)) as L. rewrite Ha in L.
      cbn [length] in L. lia.
    - now apply drop_ws_id. }
  unfold trim. rewrite Hr, rev_involutive, Hb. reflexivity.
Qed.

Lemma trim_head : forall s c t, trim s = c :: t -> is_ws c = false.
Proof.
  intros s c t H. apply (trim_head_not_ws c t). rewrite <- H. apply trim_idem.
Qed.

Lemma starts_with_app_r : forall p a b,
  starts_with p a = true -> starts_with p (a ++ b) = true.
Proof.
  induction p as [|c p IH]; intros a b H; [reflexivity|].
  destruct a as [|d a]; [discriminate|]. cbn [starts_with app] in *.
  apply andb_true_iff in H. destruct H as [H1 H2].
  rewrite H1. cbn [andb]. now apply IH.
Qed.

(** A stop that is a literal prefix does not occur in the trimmed body. *)
Lemma no_literal_in_trim : forall lit body rest,
  lit <> [] ->
  no_stop_in (starts_with lit) body rest ->
  forall j, starts_with lit (skipn j (trim body)) = false.
Proof.
  intros lit body rest Hne H j.
  destruct (starts_with lit (skipn j (trim body))) eqn:E; [|reflexivity].
  exfalso.
  destruct (trim_infix body) as (w1 & w2 & _ & _ & Eb).
  assert (Hj : j < length (trim body)).
  { destruct (Nat.lt_ge_cases j (length (trim body))) as [L|L]; [exact L|].
    rewrite skipn_all2 in E by exact L. destruct lit; [congruence|discriminate]. }
  specialize (H (length w1 + j)).
  assert (L : length w1 + j < length body).
  { pose proof (f_equal (@length char) Eb) as Lb. rewrite !length_app in Lb. lia. }
  specialize (H L).
  assert (S : skipn (length w1 + j) (body ++ rest)
              = skipn j (trim body) ++ (w2 ++ rest)).
  { rewrite Eb at 1. rewrite <- !app_assoc.
    rewrite Nat.add_comm, <- skipn_skipn, skipn_app_len.
    rewrite skipn_app.
    replace (j - length (trim body)) with 0 by lia. reflexivity. }
  rewrite S in H. rewrite starts_with_app_r in H by exact E. discriminate.
Qed.

Lemma section_text_no_h2 : forall name text j,
  at_h2 (skipn j (section_text name text)) = false.
Proof.
  intros name text j. unfold section_text, section_body.
  destruct (find_heading (js "##") name text) as [hs|].
  - unfold at_h2.
    apply (no_literal_in_trim (nl ++ js "##") _
             (skipn (length (body_upto at_h2 (after_heading (js "##") name hs)))
                (after_heading (js "##") name hs))).
    + discriminate.
    + apply body_upto_no_stop.
  - destruct j; reflexivity.
Qed.

(** A prefix without hashes is not seen by the parser. *)
Lemma section_body_prefix : forall h n t pre text,
  Forall (fun c => c <> HASH) pre ->
  section_body (HASH :: h) n t (pre ++ text) = section_body (HASH :: h) n t text.
Proof.
  intros h n t pre text H. unfold section_body.
  now rewrite find_heading_skip by now apply no_heading_hash_free.
Qed.

Lemma parse_prefix : forall pre text,
  Forall (fun c => c <> HASH) pre ->
  parseAnalysisFromText (pre ++ text) = parseAnalysisFromText text.
Proof.
  intros pre text H. rewrite !parse_fields.
  unfold recommendations_of, section_text.
  change (js "##") with (HASH :: js "#").
  now rewrite !section_body_prefix by exact H.
Qed.

(** The items have trimmed fields. *)
Lemma chunk_suggestion_trimmed : forall c, trim (chunk_suggestion c) = chunk_suggestion c.
Proof.
  intros c. unfold chunk_suggestion.
  destruct (section_body _ _ _ c); [apply trim_idem|reflexivity].
Qed.

Lemma chunk_reasoning_trimmed : forall c, trim (chunk_reasoning c) = chunk_reasoning c.
Proof.
  intros c. unfold chunk_reasoning.
  destruct (find_heading _ _ c); [apply trim_idem|reflexivity].
Qed.

Lemma each_element_trimmed : forall R ms acc l,
  Forall item_trimmed acc -> each_element R ms acc = Some l -> Forall item_trimmed l.
Proof.
  intros R. induction ms as [|m ms IH]; intros acc l Hacc H.
  - cbn [each_element] in H. now inversion H; subst.
  - rewrite each_element_cons in H.
    destruct (group 1 m) as [g|]; [|discriminate]. cbn [bind] in H.
    revert H. apply IH.
    destruct (truthy (trim g) && _); [|exact Hacc].
    apply Forall_app. split; [exact Hacc|].
    constructor; [|constructor]. unfold item_trimmed. cbn.
    split; [apply trim_idem|]. split;
      [apply chunk_suggestion_trimmed|apply chunk_reasoning_trimmed].
Qed.

Lemma section_text_trimmed : forall name text,
  trim (section_text name text) = section_text name text.
Proof.
  intros name text. unfold section_text.
  destruct (section_body _ _ _ text); [apply trim_idem|reflexivity].
Qed.

Lemma recommendations_trimmed : forall text recs,
  recommendations_of text = Some recs -> Forall item_trimmed recs.
Proof.
  intros text recs H. unfold recommendations_of in H.
  destruct (section_body _ _ _ text) as [R|].
  - revert H. apply each_element_trimmed. constructor.
  - inversion H; subst. constructor.
Qed.

(** The keywords. *)
Lemma split_char_no_sep : forall sep s,
  Forall (Forall (fun c => c <> sep)) (split_char sep s).
Proof.
  intros sep. induction s as [|c t IH]; cbn [split_char].
  - repeat constructor.
  - destruct (N.eqb c sep) eqn:E.
    + constructor; [constructor|exact IH].
    + apply N.eqb_neq in E.
      destruct (split_char sep t) as [|l ls].
      * repeat constructor. exact E.
      * inversion IH; subst. constructor; [constructor; assumption|assumption].
Qed.

Lemma strip_marker_Forall : forall (P : char -> Prop) l,
  Forall P l -> Forall P (strip_marker l).
Proof.
  intros P l H. destruct l as [|c t]; [constructor|].
  cbn [strip_marker]. destruct (N.eqb c HYPHEN); [now inversion H|exact H].
Qed.

Lemma spec_keywords_shape : forall ls,
  Forall (Forall (fun c => c <> NL)) ls ->
  Forall (fun k => Forall (fun c => c <> NL) k
                   /\ exists c t, k = c :: t /\ is_ws c = false)
    (spec_keywords ls).
Proof.
  intros ls H. induction H as [|l ls Hl _ IH]; [constructor|].
  cbn [spec_keywords].
  destruct (trim (strip_marker l)) as [|c t] eqn:E; [exact IH|].
  constructor; [|exact IH]. split.
  - apply Forall_firstn_js. rewrite <- E.
    now apply Forall_trim, strip_marker_Forall.
  - exists c, (firstn 19 t). split; [reflexivity|]. exact (trim_head _ _ _ E).
Qed.

(** ** The front end *)

(** *** Escaping the quotes *)

Lemma match_at_quote : forall i p s,
  match_at false re_quote i p s =
  match s with
  | c :: _ => if N.eqb QUOTE c then Some (MR i [QUOTE] []) else None
  | [] => None
  end.
Proof.
  intros i p s. unfold match_at, re_quote. cbn [rmatch rest].
  destruct s as [|c t]; [reflexivity|].
  destruct (N.eqb QUOTE c) eqn:E; [|reflexivity].
  apply N.eqb_eq in E. subst c. cbn [advance idx caps].
  replace (S i - i) with 1 by lia. reflexivity.
Qed.

Lemma replace_quote : forall s i p,
  replace_all_from false re_quote (fun _ => js "&quot;") i p s 0
  = replace_char QUOTE (js "&quot;") s.
Proof.
  induction s as [|c t IH]; intros i p; cbn [replace_all_from];
    rewrite match_at_quote; [reflexivity|].
  unfold replace_char. cbn [flat_map]. destruct (N.eqb QUOTE c).
  - cbn [matched length Nat.sub]. rewrite IH. reflexivity.
  - rewrite IH. reflexivity.
Qed.

Lemma escape_quotes_char : forall s,
  escape_quotes s = replace_char QUOTE (js "&quot;") s.
Proof. intros s. apply replace_quote. Qed.

Lemma replace_char_app : forall c0 r a b,
  replace_char c0 r (a ++ b) = replace_char c0 r a ++ replace_char c0 r b.
Proof. intros. unfold replace_char. apply flat_map_app. Qed.

Lemma replace_char_absent : forall c0 r s,
  Forall (fun c => c <> c0) s -> replace_char c0 r s = s.
Proof.
  intros c0 r. induction s as [|c t IH]; intros H; [reflexivity|].
  inversion H; subst. unfold replace_char. cbn [flat_map].
  destruct (N.eqb c0 c) eqn:E.
  - apply N.eqb_eq in E. congruence.
  - cbn [app]. f_equal. now apply IH.
Qed.

Lemma replace_char_gone : forall c0 r s,
  Forall (fun c => c <> c0) r -> Forall (fun c => c <> c0) (replace_char c0 r s).
Proof.
  intros c0 r s Hr. induction s as [|c t IH]; [constructor|].
  unfold replace_char. cbn [flat_map]. destruct (N.eqb c0 c) eqn:E.
  - apply Forall_app. split; [exact Hr|exact IH].
  - apply N.eqb_neq in E. constructor; [congruence|exact IH].
Qed.

Lemma entity_no_quote : Forall (fun c => c <> QUOTE) (js "&quot;").
Proof. repeat constructor; discriminate. Qed.

Lemma escape_quotes_no_quote : forall s, Forall (fun c => c <> QUOTE) (escape_quotes s).
Proof.
  intros s. rewrite escape_quotes_char. apply replace_char_gone, entity_no_quote.
Qed.

Lemma body_upto_char : forall c0 s tl,
  Forall (fun c => c <> c0) s ->
  body_upto (starts_with [c0]) (s ++ c0 :: tl) = s.
Proof.
  intros c0. induction s as [|c t IH]; intros tl H.
  - cbn [app body_upto starts_with]. now rewrite N.eqb_refl.
  - inversion H; subst. cbn [app body_upto starts_with].
    destruct (N.eqb c0 c) eqn:E.
    + apply N.eqb_eq in E. congruence.
    + cbn [andb]. f_equal. now apply IH.
Qed.

(** *** The sources *)

Lemma defined_webs_In : forall chunks w,
  In w (defined_webs chunks) <-> exists ch, In ch chunks /\ web ch = Some w.
Proof.
  induction chunks as [|c t IH]; intros w; cbn [defined_webs].
  - split; [intros []|intros (ch & [] & _)].
  - destruct (web c) as [w0|] eqn:E.
    + cbn [In]. rewrite IH. split.
      * intros [->|(ch & Hin & Hw)]; [exists c; split; [now left|exact E]|].
        exists ch. split; [now right|exact Hw].
      * intros (ch & [->|Hin] & Hw); [left; congruence|].
        right. exists ch. now split.
    + rewrite IH. split.
      * intros (ch & Hin & Hw). exists ch. split; [now right|exact Hw].
      * intros (ch & [->|Hin] & Hw); [congruence|]. exists ch. now split.
Qed.

Lemma sources_of_response_In : forall response w,
  In w (sources_of_response response) <->
  exists c cs gm chunks ch,
    candidates response = Some (c :: cs)
    /\ groundingMetadata c = Some gm
    /\ groundingChunks gm = Some chunks
    /\ In ch chunks /\ web ch = Some w.
Proof.
  intros response w. unfold sources_of_response, first_metadata.
  destruct (candidates response) as [[|c cs]|] eqn:Ec.
  - split; [intros []|]. intros (c & cs & gm & chunks & ch & H & _). discriminate.
  - destruct (groundingMetadata c) as [gm|] eqn:Eg.
    + destruct (groundingChunks gm) as [chunks|] eqn:Ek.
      * rewrite defined_webs_In. split.
        -- intros (ch & Hin & Hw). exists c, cs, gm, chunks, ch. repeat split; assumption.
        -- intros (c' & cs' & gm' & chunks' & ch & H1 & H2 & H3 & Hin & Hw).
           inversion H1; subst c' cs'. rewrite Eg in H2. inversion H2; subst gm'.
           rewrite Ek in H3. inversion H3; subst chunks'. exists ch. now split.
      * split; [intros []|].
        intros (c' & cs' & gm' & chunks' & ch & H1 & H2 & H3 & _).
        inversion H1; subst c' cs'. rewrite Eg in H2. inversion H2; subst gm'.
        rewrite Ek in H3. discriminate.
    + split; [intros []|].
      intros (c' & cs' & gm' & chunks' & ch & H1 & H2 & _).
      inversion H1; subst c' cs'. rewrite Eg in H2. discriminate.
  - split; [intros []|]. intros (c & cs & gm & chunks & ch & H & _). discriminate.
Qed.

Lemma sourcesHTML_fallback : forall analysis,
  sourcesHTML analysis = no_sources_html <->
  (sources analysis = None \/ sources analysis = Some []).
Proof.
  intros analysis. unfold sourcesHTML.
  destruct (sources analysis) as [[|s l]|].
  - split; [now right|reflexivity].
  - split; [|intros [H|H]; discriminate].
    cbn [map concat]. unfold source_item_html, no_sources_html. discriminate.
  - split; [now left|reflexivity].
Qed.

(** *** The prompts *)

Lemma string_eqb_eq : forall a b, string_eqb a b = true <-> a = b.
Proof.
  induction a as [|c a IH]; destruct b as [|d b]; cbn [string_eqb];
    try (split; [discriminate|discriminate]); [split; reflexivity|].
  rewrite andb_true_iff, N.eqb_eq, IH. split.
  - intros [-> ->]. reflexivity.
  - intros H. inversion H. now split.
Qed.

Lemma find_element_none : forall name recs,
  find_element name recs = None <-> Forall (fun r => element r <> name) recs.
Proof.
  intros name. induction recs as [|r t IH]; cbn [find_element].
  - split; [constructor|reflexivity].
  - destruct (string_eqb (element r) name) eqn:E.
    + apply string_eqb_eq in E. split; [discriminate|].
      intros H. inversion H; subst. congruence.
    + rewrite IH. split.
      * intros H. constructor; [|exact H]. intros He.
        apply string_eqb_eq in He. congruence.
      * intros H. now inversion H.
Qed.

Lemma find_element_first : forall name pre r post,
  Forall (fun x => element x <> name) pre -> element r = name ->
  find_element name (pre ++ r :: post) = Some r.
Proof.
  intros name pre r post H Hr. induction H as [|x l Hx _ IH]; cbn [app find_element].
  - apply string_eqb_eq in Hr. now rewrite Hr.
  - destruct (string_eqb (element x) name) eqn:E; [|exact IH].
    apply string_eqb_eq in E. congruence.
Qed.

(** *** handleInitialGeneration *)

Lemma trim_nil_all_ws : forall s, trim s = [] -> all_ws s.
Proof.
  intros s H. destruct (trim_infix s) as (w1 & w2 & H1 & H2 & E).
  rewrite H in E. rewrite E. apply Forall_app. split; assumption.
Qed.

(** ** From the extractor to the page *)

Lemma Forall_find_heading : forall (P : char -> Prop) h n s hs,
  find_heading h n s = Some hs -> Forall P s -> Forall P hs.
Proof.
  intros P h n s hs H Hs. destruct (find_heading_some h n s hs H) as (pre & -> & _).
  apply Forall_app in Hs. tauto.
Qed.

Lemma Forall_after_heading : forall (P : char -> Prop) h n s,
  Forall P s -> Forall P (after_heading h n s).
Proof.
  intros P h n s H. unfold after_heading.
  apply Forall_drop_ws, Forall_skipn_js, Forall_drop_ws, Forall_skipn_js, H.
Qed.

Lemma Forall_body_upto : forall (P : char -> Prop) t s,
  Forall P s -> Forall P (body_upto t s).
Proof.
  intros P t s H. rewrite <- firstn_body_upto. now apply Forall_firstn_js.
Qed.

Lemma Forall_section_body : forall (P : char -> Prop) h n t s b,
  section_body h n t s = Some b -> Forall P s -> Forall P b.
Proof.
  intros P h n t s b H Hs. unfold section_body in H.
  destruct (find_heading h n s) as [hs|] eqn:E; [|discriminate].
  inversion H; subst.
  apply Forall_body_upto, Forall_after_heading.
  exact (Forall_find_heading P h n s hs E Hs).
Qed.

Lemma Forall_section_text : forall (P : char -> Prop) name text,
  Forall P text -> Forall P (section_text name text).
Proof.
  intros P name text H. unfold section_text.
  destruct (section_body _ _ _ text) as [b|] eqn:E; [|constructor].
  apply Forall_trim. exact (Forall_section_body P _ _ _ _ _ E H).
Qed.

Lemma Forall_substring : forall (P : char -> Prop) a b s,
  Forall P s -> Forall P (substring a b s).
Proof.
  intros P a b s H. unfold substring.
  now apply Forall_firstn_js, Forall_skipn_js.
Qed.

Lemma Forall_chunk_suggestion : forall (P : char -> Prop) c,
  Forall P c -> Forall P (chunk_suggestion c).
Proof.
  intros P c H. unfold chunk_suggestion.
  destruct (section_body _ _ _ c) as [b|] eqn:E; [|constructor].
  apply Forall_trim. exact (Forall_section_body P _ _ _ _ _ E H).
Qed.

Lemma Forall_chunk_reasoning : forall (P : char -> Prop) c,
  Forall P c -> Forall P (chunk_reasoning c).
Proof.
  intros P c H. unfold chunk_reasoning.
  destruct (find_heading _ _ c) as [hs|] eqn:E; [|constructor].
  apply Forall_trim, Forall_after_heading.
  exact (Forall_find_heading P _ _ _ _ E H).
Qed.

Lemma each_element_parts : forall (P : char -> Prop) R ms acc l,
  Forall P R ->
  Forall (fun r => Forall P (suggestion r) /\ Forall P (reasoning r)) acc ->
  each_element R ms acc = Some l ->
  Forall (fun r => Forall P (suggestion r) /\ Forall P (reasoning r)) l.
Proof.
  intros P R. induction ms as [|m ms IH]; intros acc l HR Hacc H.
  - cbn [each_element] in H. now inversion H; subst.
  - rewrite each_element_cons in H.
    destruct (group 1 m) as [g|]; [|discriminate]. cbn [bind] in H.
    revert H. apply IH; [exact HR|].
    destruct (truthy (trim g) && _); [|exact Hacc].
    apply Forall_app. split; [exact Hacc|].
    constructor; [|constructor]. cbn.
    split; [apply Forall_chunk_suggestion|apply Forall_chunk_reasoning];
      now apply Forall_substring.
Qed.

Lemma recommendations_parts : forall (P : char -> Prop) text recs,
  Forall P text -> recommendations_of text = Some recs ->
  Forall (fun r => Forall P (suggestion r) /\ Forall P (reasoning r)) recs.
Proof.
  intros P text recs Ht H. unfold recommendations_of in H.
  destruct (section_body _ _ _ text) as [R|] eqn:E.
  - revert H. apply each_element_parts; [|constructor].
    exact (Forall_section_body P _ _ _ _ _ E Ht).
  - inversion H; subst. constructor.
Qed.

Lemma shown_plain_trimmed : forall s,
  trim s = s -> no_star s -> shown_plain s.
Proof.
  intros s Ht Hs. unfold shown_plain. destruct s as [|c t]; [reflexivity|].
  cbn [truthy]. rewrite format_no_star by (discriminate || exact Hs).
  now rewrite Ht.
Qed.

(** ** Spans of sections *)

Lemma no_stop_in_tail : forall t a b tl,
  no_stop_in t (a ++ b) tl -> no_stop_in t b tl.
Proof.
  intros t a b tl H j Hj.
  specialize (H (length a + j)).
  rewrite <- app_assoc, Nat.add_comm, <- skipn_skipn, skipn_app_len in H.
  apply H. rewrite length_app. lia.
Qed.

Lemma trim_drop_ws_id : forall s, trim (drop_ws s) = trim s.
Proof. intros s. unfold trim. now rewrite drop_ws_idem. Qed.

(** A span whose body is not blank, or that nothing follows, is what the
    pattern captures, up to the whitespace in front of the body. *)
Lemma span_gives_cut : forall h name t text pre w body post,
  heading_span h name t text pre w body post ->
  (~ all_ws body \/ post = []) ->
  section_cut h name t text (drop_ws body).
Proof.
  intros h name t text pre w body post (Et & Hw & Hpre & Hstop & Hpost) Hn.
  destruct (drop_ws_split body) as (w2 & Hw2 & Eb).
  exists pre, w, w2, post.
  assert (E2 : w2 ++ drop_ws body ++ post = body ++ post)
    by (rewrite app_assoc, <- Eb; reflexivity).
  split; [now rewrite E2|].
  split; [exact Hw|]. split; [exact Hw2|].
  split; [now rewrite E2|].
  split.
  - destruct (drop_ws body) as [|c b'] eqn:Ed.
    + destruct Hn as [Hn| ->]; [|reflexivity].
      exfalso. apply Hn. rewrite Eb, app_nil_r. exact Hw2.
    + cbn [app]. apply drop_ws_id. exact (drop_ws_head body c b' Ed).
  - split; [|exact Hpost].
    apply (no_stop_in_tail t w2). now rewrite <- Eb.
Qed.

Lemma span_gives_body : forall h name t text pre w body post,
  head_not_ws name ->
  heading_span h name t text pre w body post ->
  (~ all_ws body \/ post = []) ->
  section_body h name t text = Some (drop_ws body).
Proof.
  intros h name t text pre w body post Hh Hs Hn.
  apply section_cut_gives_body; [exact Hh|].
  exact (span_gives_cut h name t text pre w body post Hs Hn).
Qed.

Lemma span_exists : forall h name t text,
  head_not_ws name ->
  contains_heading h name text ->
  exists pre w body post, heading_span h name t text pre w body post.
Proof.
  intros h name t text Hh Hc.
  destruct name as [|c0 n]; [destruct Hh|]. cbn [head_not_ws] in Hh.
  destruct (find_heading h (c0 :: n) text) as [hs|] eqn:Ef.
  - destruct (find_heading_some h (c0 :: n) text hs Ef) as (pre & Et & Hhere & Hpre).
    apply heading_here_iff in Hhere; [|exact Hh].
    destruct Hhere as (w & tl & Hw & Ehs).
    exists pre, w, (body_upto t tl), (skipn (length (body_upto t tl)) tl).
    pose proof (body_upto_split t tl) as Es.
    split; [rewrite <- Es, <- Ehs; exact Et|].
    split; [exact Hw|].
    split; [rewrite <- Es, <- Ehs; exact Hpre|].
    split; [apply body_upto_no_stop|apply body_upto_rest].
  - exfalso. apply (find_heading_none_iff h c0 n text Hh) in Ef. exact (Ef Hc).
Qed.

Lemma section_text_span : forall name text pre w body post,
  head_not_ws name ->
  heading_span (js "##") name at_h2 text pre w body post ->
  (~ all_ws body \/ post = []) ->
  section_text name text = trim body.
Proof.
  intros name text pre w body post Hh Hs Hn. unfold section_text.
  rewrite (span_gives_body (js "##") name at_h2 text pre w body post Hh Hs Hn).
  apply trim_drop_ws_id.
Qed.

(** ** The blocks of the Recommendations body *)




















(** * The statements of the specification *)

(** ** The extractor *)

(** C1.  A text that contains none of the four section headings (each one
    being two hashes, any whitespace, and the section name) is mapped to the
    analysis whose assessment and price analysis are empty strings and whose
    recommendations and keywords are empty lists; and the extractor returns an
    analysis on every text, whatever it contains: no call on a group of a
    match is ever made on [undefined]. *)
Theorem C1_no_heading_gives_defaults : forall text,
  (exists d, parseAnalysisFromText text = Some d)
  /\ (~ contains_heading (js "##") (js "Overall Assessment") text ->
      ~ contains_heading (js "##") (js "Price Analysis") text ->
      ~ contains_heading (js "##") (js "Suggested SEO Tags (13)") text ->
      ~ contains_heading (js "##") (js "Actionable Recommendations") text ->
      parseAnalysisFromText text = Some empty_analysis).
Proof.
  intros text. split; [apply parse_total|].
  intros Ha Hp Ht Hr.
  apply absent_heading_not_found in Ha; [|reflexivity].
  apply absent_heading_not_found in Hp; [|reflexivity].
  apply absent_heading_not_found in Ht; [|reflexivity].
  apply absent_heading_not_found in Hr; [|reflexivity].
  rewrite parse_fields. unfold recommendations_of, section_text, section_body.
  rewrite Ha, Hp, Ht, Hr. reflexivity.
Qed.

(** The empty text is such a text. *)
Lemma C1_witness_empty_text :
  (exists d, parseAnalysisFromText [] = Some d)
  /\ parseAnalysisFromText [] = Some empty_analysis.
Proof.
  split; [exact (proj1 (C1_no_heading_gives_defaults []))|].
  apply (proj2 (C1_no_heading_gives_defaults []));
    apply not_found_absent_heading; reflexivity.
Defined.

Ltac solve_span :=
  split; [vm_compute; reflexivity|];
  split; [repeat constructor|];
  split; [apply check_no_heading_spec; vm_compute; reflexivity|];
  split; [apply check_no_stop_spec; vm_compute; reflexivity|];
  first [left; reflexivity | right; vm_compute; reflexivity].

Ltac not_blank :=
  let H := fresh "H" in
  intros H; apply drop_ws_all_ws in H; vm_compute in H; discriminate H.








(** C3, counterexample. As stated the property fails: the body of the tags
    section does not run to the next level-2 heading; a line that starts with
    three hashes ends it, and the tag after that line is lost. *)
Lemma C3_deeper_heading_ends_tags :
  option_map suggested_keywords (parseAnalysisFromText tags_deeper_example)
  = Some [js "a"]
  /\ spec_keywords
       (split_char NL (js "- a" ++ nl ++ js "### Note" ++ nl ++ js "- b"))
     = [js "a"; js "### Note"; js "b"]
  /\ [js "a"] <> [js "a"; js "### Note"; js "b"].
Proof.
  split; [vm_compute; reflexivity|].
  split; [vm_compute; reflexivity|discriminate].
Qed.

(** C3, amended.  When the text has a Suggested SEO Tags section, the section
    has a body: it runs from the heading to the first newline that two
    hashes follow (so a line of three hashes ends it too), or to the end of
    the text.  Unless the section is blank before such a line, the keywords
    are obtained from the body, taken from its first code unit that is not
    whitespace: it is split into lines and, line by line and in that order, a
    hyphen that starts the line is stripped, the line is trimmed, dropped if
    nothing is left, and cut to its first 20 code units.  Every keyword of
    every result has between 1 and 20 code units. *)
Theorem C3_keywords : forall text,
  (contains_heading (js "##") (js "Suggested SEO Tags (13)") text ->
   exists pre w body post,
     heading_span (js "##") (js "Suggested SEO Tags (13)") at_h2
       text pre w body post)
  /\ (forall pre w body post,
        heading_span (js "##") (js "Suggested SEO Tags (13)") at_h2
          text pre w body post ->
        (~ all_ws body \/ post = []) ->
        exists d, parseAnalysisFromText text = Some d
                  /\ suggested_keywords d
                     = spec_keywords (split_char NL (drop_ws body)))
  /\ (forall d, parseAnalysisFromText text = Some d ->
        Forall (fun k => 1 <= length k <= 20) (suggested_keywords d)).
Proof.
  intros text. split; [|split].
  - now apply span_exists.
  - intros pre w body post Hs Hn. destruct (parse_total text) as [d Hd].
    exists d. split; [assumption|].
    destruct (parse_some_fields text d Hd) as [_ [_ [_ Hk]]]. rewrite Hk.
    rewrite (span_gives_body (js "##") (js "Suggested SEO Tags (13)") at_h2
               text pre w body post eq_refl Hs Hn).
    apply keywords_of_spec.
  - intros d Hd.
    destruct (parse_some_fields text d Hd) as [_ [_ [_ Hk]]]. rewrite Hk.
    destruct (section_body _ _ _ text); [|constructor].
    rewrite keywords_of_spec. apply spec_keywords_bounds.
Qed.

Lemma tags_example_span :
  heading_span (js "##") (js "Suggested SEO Tags (13)") at_h2
    tags_example [] (js " ") (nl ++ tags_example_body) [].
Proof. solve_span. Qed.

Lemma tags_example_parsed :
  parseAnalysisFromText tags_example
  = Some (Build_ListingAnalysis [] [] []
            [js "handmade wedding sig"; js "custom welcome decor"] None).
Proof. vm_compute. reflexivity. Qed.

Lemma tags_example_has_heading :
  contains_heading (js "##") (js "Suggested SEO Tags (13)") tags_example.
Proof.
  exists [], tags_example. split; [reflexivity|].
  exists (js " "), (nl ++ tags_example_body). split; [repeat constructor|reflexivity].
Qed.

Lemma C3_witness_tags_example :
  (exists pre w body post,
     heading_span (js "##") (js "Suggested SEO Tags (13)") at_h2
       tags_example pre w body post)
  /\ (exists d, parseAnalysisFromText tags_example = Some d
                /\ suggested_keywords d
                   = spec_keywords
                       (split_char NL (drop_ws (nl ++ tags_example_body))))
  /\ spec_keywords (split_char NL (drop_ws (nl ++ tags_example_body)))
     = [js "handmade wedding sig"; js "custom welcome decor"]
  /\ Forall (fun k => 1 <= length k <= 20)
       [js "handmade wedding sig"; js "custom welcome decor"].
Proof.
  split; [|split; [|split]].
  - exact (proj1 (C3_keywords tags_example) tags_example_has_heading).
  - apply (proj1 (proj2 (C3_keywords tags_example))
             [] (js " ") (nl ++ tags_example_body) [] tags_example_span).
    left. not_blank.
  - vm_compute. reflexivity.
  - exact (proj2 (proj2 (C3_keywords tags_example)) _ tags_example_parsed).
Defined.

(** C4, counterexample. As stated the property fails: a line that introduces a
    deeper heading ends the body of the Overall Assessment section. *)
Lemma C4_deeper_heading_ends_body :
  option_map overall_assessment (parseAnalysisFromText deeper_heading_example)
  = Some (js "Intro")
  /\ js "Intro" <> js "Intro" ++ nl ++ js "### Details" ++ nl ++ js "More".
Proof. split; [vm_compute; reflexivity|discriminate]. Qed.

(** C4, amended.  When the text has an Overall Assessment section (and
    likewise a Price Analysis section), the section has a body: it runs from
    the heading to the first newline that two hashes follow, or to the end of
    the text, so that a line that starts with three hashes or more ends the
    body as well.  When the body is not blank, or nothing follows it, the
    field of the result is that body, trimmed.  Nothing is said of a section
    that is blank up to a line that starts with two hashes. *)
Theorem C4_body_ends_at_newline_hashes : forall text,
  (contains_heading (js "##") (js "Overall Assessment") text ->
   exists pre w body post,
     heading_span (js "##") (js "Overall Assessment") at_h2 text pre w body post)
  /\ (contains_heading (js "##") (js "Price Analysis") text ->
      exists pre w body post,
        heading_span (js "##") (js "Price Analysis") at_h2 text pre w body post)
  /\ (forall pre w body post,
        heading_span (js "##") (js "Overall Assessment") at_h2
          text pre w body post ->
        (~ all_ws body \/ post = []) ->
        exists d, parseAnalysisFromText text = Some d
                  /\ overall_assessment d = trim body)
  /\ (forall pre w body post,
        heading_span (js "##") (js "Price Analysis") at_h2
          text pre w body post ->
        (~ all_ws body \/ post = []) ->
        exists d, parseAnalysisFromText text = Some d
                  /\ price_analysis d = trim body).
Proof.
  intros text. destruct (parse_total text) as [d Hd].
  destruct (parse_some_fields text d Hd) as [Ho [Hp _]].
  split; [now apply span_exists|].
  split; [now apply span_exists|].
  split; intros pre w body post Hs Hn; exists d; (split; [assumption|]).
  - rewrite Ho.
    exact (section_text_span (js "Overall Assessment") text pre w body post
             eq_refl Hs Hn).
  - rewrite Hp.
    exact (section_text_span (js "Price Analysis") text pre w body post
             eq_refl Hs Hn).
Qed.

Lemma deeper_heading_span :
  heading_span (js "##") (js "Overall Assessment") at_h2
    deeper_heading_example [] (js " ") (nl ++ js "Intro")
    (nl ++ js "### Details" ++ nl ++ js "More").
Proof. solve_span. Qed.

Lemma price_example_span :
  heading_span (js "##") (js "Price Analysis") at_h2 price_example
    (js "Intro" ++ nl) (js " ") (nl ++ js "Cheap.")
    (nl ++ js "## Suggested SEO Tags (13)" ++ nl ++ js "- tag").
Proof. solve_span. Qed.

Lemma deeper_heading_has_heading :
  contains_heading (js "##") (js "Overall Assessment") deeper_heading_example.
Proof.
  exists [], deeper_heading_example. split; [reflexivity|].
  exists (js " "), (nl ++ js "Intro" ++ nl ++ js "### Details" ++ nl ++ js "More").
  split; [repeat constructor|reflexivity].
Qed.

Lemma price_example_has_heading :
  contains_heading (js "##") (js "Price Analysis") price_example.
Proof.
  exists (js "Intro" ++ nl),
    (js "## Price Analysis" ++ nl ++ js "Cheap." ++ nl
     ++ js "## Suggested SEO Tags (13)" ++ nl ++ js "- tag").
  split; [reflexivity|].
  exists (js " "),
    (nl ++ js "Cheap." ++ nl ++ js "## Suggested SEO Tags (13)" ++ nl ++ js "- tag").
  split; [repeat constructor|reflexivity].
Qed.

Lemma C4_witness_deeper_heading :
  (exists pre w body post,
     heading_span (js "##") (js "Overall Assessment") at_h2
       deeper_heading_example pre w body post)
  /\ (exists pre w body post,
        heading_span (js "##") (js "Price Analysis") at_h2
          price_example pre w body post)
  /\ (exists d, parseAnalysisFromText deeper_heading_example = Some d
                /\ overall_assessment d = trim (nl ++ js "Intro"))
  /\ (exists d, parseAnalysisFromText price_example = Some d
                /\ price_analysis d = trim (nl ++ js "Cheap.")).
Proof.
  split; [|split; [|split]].
  - exact (proj1 (C4_body_ends_at_newline_hashes deeper_heading_example)
             deeper_heading_has_heading).
  - exact (proj1 (proj2 (C4_body_ends_at_newline_hashes price_example))
             price_example_has_heading).
  - apply (proj1 (proj2 (proj2 (C4_body_ends_at_newline_hashes
                                  deeper_heading_example)))
             [] (js " ") (nl ++ js "Intro")
             (nl ++ js "### Details" ++ nl ++ js "More") deeper_heading_span).
    left. not_blank.
  - apply (proj2 (proj2 (proj2 (C4_body_ends_at_newline_hashes price_example)))
             (js "Intro" ++ nl) (js " ") (nl ++ js "Cheap.")
             (nl ++ js "## Suggested SEO Tags (13)" ++ nl ++ js "- tag")
             price_example_span).
    left. not_blank.
Defined.

(** C5, counterexample. As stated the property fails: a level-2 heading other
    than the Suggested SEO Tags heading does not end the Recommendations
    section; here the Price Analysis heading and its text end up in the
    reasoning of the last recommendation. *)
Lemma C5_other_heading_does_not_end_section :
  option_map recommendations (parseAnalysisFromText other_heading_example)
  = Some [Build_Recommendation (js "T") (js "foo")
            (js "bar" ++ nl ++ js "## Price Analysis" ++ nl ++ js "p")].
Proof. vm_compute. reflexivity. Qed.

(** C5, amended.  When the text has an Actionable Recommendations section,
    the section has a body: it runs from the heading to the first newline
    followed by two hashes, any whitespace and "Suggested SEO Tags", or to
    the end of the text; no other heading ends it.  When the body is not
    blank, or nothing follows it, group 1 of the match is that body from its
    first code unit that is not whitespace, and the recommendations are read
    off it.  Nothing is said of a section that is blank up to the Suggested
    SEO Tags heading. *)
Theorem C5_recommendations_end_at_tags : forall text,
  (contains_heading (js "##") (js "Actionable Recommendations") text ->
   exists pre w body post,
     heading_span (js "##") (js "Actionable Recommendations") at_tags
       text pre w body post)
  /\ (forall pre w body post,
        heading_span (js "##") (js "Actionable Recommendations") at_tags
          text pre w body post ->
        (~ all_ws body \/ post = []) ->
        (exists m, str_match false re_recommendations text = Some m
                   /\ group 1 m = Some (drop_ws body))
        /\ (exists d, parseAnalysisFromText text = Some d
                      /\ each_element (drop_ws body)
                           (str_match_all true re_element (drop_ws body)) []
                         = Some (recommendations d))).
Proof.
  intros text. split; [now apply span_exists|].
  intros pre w body post Hs Hn.
  pose proof (span_gives_body (js "##") (js "Actionable Recommendations")
                at_tags text pre w body post eq_refl Hs Hn) as Hb.
  split.
  - pose proof (section_group_is_body (js "##") (js "Actionable Recommendations")
                  stop_tags at_tags text eq_refl stop_tags_spec) as Hg.
    change (re_section (js "##") (js "Actionable Recommendations") stop_tags)
      with re_recommendations in Hg.
    rewrite Hb in Hg.
    destruct (str_match false re_recommendations text) as [m|]; [|discriminate].
    now exists m.
  - destruct (parse_total text) as [d Hd]. exists d. split; [assumption|].
    destruct (parse_some_fields text d Hd) as [_ [_ [Hr _]]].
    unfold recommendations_of in Hr. now rewrite Hb in Hr.
Qed.

Lemma tags_end_span :
  heading_span (js "##") (js "Actionable Recommendations") at_tags
    tags_end_example [] (js " ") (nl ++ tags_end_body)
    (nl ++ js "## Suggested SEO Tags (13)" ++ nl ++ js "- tag").
Proof. solve_span. Qed.

Lemma tags_end_has_heading :
  contains_heading (js "##") (js "Actionable Recommendations") tags_end_example.
Proof.
  exists [], tags_end_example. split; [reflexivity|].
  exists (js " "),
    (nl ++ js "### Element: T" ++ nl ++ js "#### Suggestion: foo" ++ nl
     ++ js "## Price Analysis" ++ nl ++ js "## Suggested SEO Tags (13)" ++ nl
     ++ js "- tag").
  split; [repeat constructor|reflexivity].
Qed.

Lemma C5_witness_tags_end :
  (exists pre w body post,
     heading_span (js "##") (js "Actionable Recommendations") at_tags
       tags_end_example pre w body post)
  /\ (exists m, str_match false re_recommendations tags_end_example = Some m
                /\ group 1 m = Some (drop_ws (nl ++ tags_end_body)))
  /\ (exists d, parseAnalysisFromText tags_end_example = Some d
                /\ each_element (drop_ws (nl ++ tags_end_body))
                     (str_match_all true re_element
                        (drop_ws (nl ++ tags_end_body))) []
                   = Some (recommendations d)).
Proof.
  split.
  - exact (proj1 (C5_recommendations_end_at_tags tags_end_example)
             tags_end_has_heading).
  - apply (proj2 (C5_recommendations_end_at_tags tags_end_example)
             [] (js " ") (nl ++ tags_end_body)
             (nl ++ js "## Suggested SEO Tags (13)" ++ nl ++ js "- tag")
             tags_end_span).
    left. not_blank.
Defined.

(** C6, on the failing input.  The element line carries no label, yet the
    block yields an item: the whitespace after "Element:" is matched across
    the end of the line, so that the next line, the Suggestion heading with
    its text, is taken for the label, and the reasoning is kept. *)
Theorem C6_empty_label_block_yields_item :
  option_map recommendations (parseAnalysisFromText empty_label_example)
  = Some [Build_Recommendation (js "#### Suggestion: foo") [] (js "bar")].
Proof. vm_compute. reflexivity. Qed.





(** The assessment example of the specification: a text with the Overall
    Assessment section only. *)
Lemma assessment_only_example :
  parseAnalysisFromText (js "## Overall Assessment" ++ nl ++ js "Great listing.")
  = Some (Build_ListingAnalysis (js "Great listing.") [] [] [] None).
Proof. vm_compute. reflexivity. Qed.

(** ** The formatter *)

(** C7, counterexample. As stated the property fails: the bullet example is
    cut into three pieces, not two. *)
Lemma C7_three_chunks_not_two :
  length (paragraphs_of (with_bold bullet_example)) = 3
  /\ length (paragraphs_of (with_bold bullet_example)) <> 2.
Proof. split; [vm_compute; reflexivity|vm_compute; discriminate]. Qed.

(** C7, amended.  The bullet example yields three paragraphs, one for the
    introduction and one for each bullet line; in general a line followed by
    a newline, any whitespace and an asterisk is cut off as a piece of its
    own, the newline and the whitespace being the separator. *)
Theorem C7_bullet_split :
  paragraphs_of (with_bold bullet_example)
  = [js "Intro line"; js "* First bullet"; js "* Second bullet"]
  /\ formatAIResponseWithAsterisks bullet_example
     = js "<p>Intro line</p><p>First bullet</p><p>Second bullet</p>"
  /\ (forall a w b,
        Forall (fun c => c <> NL) a -> all_ws w ->
        paragraphs_of (a ++ nl ++ w ++ STAR :: b) = a :: paragraphs_of (STAR :: b)).
Proof.
  split; [vm_compute; reflexivity|].
  split; [vm_compute; reflexivity|].
  apply paragraphs_of_split.
Qed.

Lemma C7_witness_intro_line :
  paragraphs_of (js "Intro line" ++ nl ++ js " " ++ STAR :: js " First bullet")
  = js "Intro line" :: paragraphs_of (STAR :: js " First bullet").
Proof.
  apply (proj2 (proj2 C7_bullet_split) (js "Intro line") (js " ") (js " First bullet")).
  - repeat constructor; discriminate.
  - repeat constructor.
Defined.

(** C8, counterexample. As stated the property fails: formatting the text "a"
    twice does not give what formatting it once gives. *)
Lemma C8_not_idempotent :
  no_star (js "a")
  /\ formatAIResponseWithAsterisks (formatAIResponseWithAsterisks (js "a"))
     <> formatAIResponseWithAsterisks (js "a").
Proof.
  split; [repeat constructor; discriminate|vm_compute; discriminate].
Qed.

(** C8, amended.  A non-empty text without asterisks is formatted as one
    paragraph holding the trimmed text with its newlines turned into line
    breaks; the result differs from the text, and formatting the result again
    wraps it in one more paragraph. *)
Theorem C8_format_wraps_again : forall x,
  x <> [] -> no_star x ->
  formatAIResponseWithAsterisks x = js "<p>" ++ br (trim x) ++ js "</p>"
  /\ formatAIResponseWithAsterisks x <> x
  /\ formatAIResponseWithAsterisks (formatAIResponseWithAsterisks x)
     = js "<p>" ++ formatAIResponseWithAsterisks x ++ js "</p>".
Proof.
  intros x Hx Hns.
  pose proof (format_no_star x Hx Hns) as E. split; [exact E|].
  set (y := formatAIResponseWithAsterisks x) in *.
  split.
  - intros Hyx. rewrite Hyx in E.
    assert (Ht : trim x = x) by (rewrite E at 1; rewrite trim_paragraph; now symmetry).
    rewrite Ht in E. apply (f_equal (@length char)) in E.
    rewrite !length_app in E. pose proof (br_length x). simpl in E. lia.
  - assert (Hy : no_star y).
    { rewrite E. apply Forall_app. split; [repeat constructor; discriminate|].
      apply Forall_app. split; [|repeat constructor; discriminate].
      apply br_no_star. now apply Forall_trim. }
    assert (Hnl : Forall (fun c => c <> NL) y).
    { rewrite E. apply Forall_app. split; [repeat constructor; discriminate|].
      apply Forall_app. split; [apply br_has_no_newline|].
      repeat constructor; discriminate. }
    assert (Ht : trim y = y) by (rewrite E; apply trim_paragraph).
    rewrite format_no_star; [|rewrite E; discriminate|assumption].
    rewrite Ht. now rewrite br_no_newline.
Qed.

Lemma C8_witness_plain_text :
  formatAIResponseWithAsterisks (js "a") = js "<p>" ++ br (trim (js "a")) ++ js "</p>"
  /\ formatAIResponseWithAsterisks (js "a") <> js "a"
  /\ formatAIResponseWithAsterisks (formatAIResponseWithAsterisks (js "a"))
     = js "<p>" ++ formatAIResponseWithAsterisks (js "a") ++ js "</p>".
Proof.
  apply (C8_format_wraps_again (js "a")).
  - discriminate.
  - repeat constructor; discriminate.
Defined.

(** C9, counterexample. As stated the property fails: an unmatched marker at
    the start of a paragraph loses its first asterisk, which is taken for a
    bullet. *)
Lemma C9_leading_marker_loses_asterisk :
  formatAIResponseWithAsterisks (js "**Bold") = js "<p>*Bold</p>"
  /\ formatAIResponseWithAsterisks (js "**Bold") <> js "<p>**Bold</p>".
Proof. split; [vm_compute; reflexivity|vm_compute; discriminate]. Qed.

(** C9, amended.  The empty string is mapped to the empty string; the text
    "**Bold** and plain" becomes one paragraph holding a strong element
    around "Bold" followed by " and plain"; and the bold pass leaves a text
    unchanged when no complete span (two asterisks, a non-empty text without
    asterisks, two asterisks) occurs in it, so that an unmatched marker inside
    a paragraph stays literal. *)
Theorem C9_format_bold :
  formatAIResponseWithAsterisks [] = []
  /\ formatAIResponseWithAsterisks (js "**Bold** and plain")
     = js "<p><strong>Bold</strong> and plain</p>"
  /\ (forall t, no_bold_span t -> with_bold t = t)
  /\ formatAIResponseWithAsterisks (js "a **b") = js "<p>a **b</p>".
Proof.
  split; [reflexivity|].
  split; [vm_compute; reflexivity|].
  split; [apply with_bold_no_span|vm_compute; reflexivity].
Qed.

Lemma C9_witness_unmatched_marker : with_bold (js "a **b") = js "a **b".
Proof.
  apply (proj1 (proj2 (proj2 C9_format_bold)) (js "a **b")).
  apply bold_free_spec. vm_compute. reflexivity.
Defined.

(** * Further properties of the front end *)

(** ** The formatter *)

(** X1.  The output of the formatter never contains a newline: inside a
    paragraph every newline has become a line break element, and the
    newlines between paragraphs are dropped with the separators. *)
Theorem X1_format_output_has_no_newline : forall rawText,
  Forall (fun c => c <> NL) (formatAIResponseWithAsterisks rawText).
Proof.
  intros rawText. unfold formatAIResponseWithAsterisks.
  destruct (negb (truthy rawText)); [constructor|].
  apply Forall_concat_js. apply Forall_forall. intros e He.
  apply in_map_iff in He. destruct He as (p & <- & _).
  apply html_paragraph_no_newline.
Qed.

(** X2.  The empty text is the only text formatted to the empty string: the
    output for any other text starts with an opening paragraph tag and ends
    with a closing one, whatever the text holds (even only whitespace). *)
Theorem X2_format_nonempty_is_wrapped : forall rawText,
  match rawText with
  | [] => formatAIResponseWithAsterisks rawText = []
  | _ :: _ =>
      exists m, formatAIResponseWithAsterisks rawText = js "<p>" ++ m ++ js "</p>"
  end.
Proof.
  intros [|c t]; [reflexivity|].
  unfold formatAIResponseWithAsterisks. cbn [truthy negb].
  apply concat_wrapped.
  - intros H. apply map_eq_nil in H. exact (paragraphs_of_not_nil _ H).
  - intros e He. apply in_map_iff in He. destruct He as (p & <- & _).
    destruct (html_paragraph_shape p) as [b Hb]. exists (br b). exact Hb.
Qed.

(** X3.  The first complete bold span of a text (two asterisks, a non-empty
    text without asterisks, two asterisks, after a prefix without asterisks)
    becomes a strong element around its inner text, the prefix is kept and
    the rest is processed in the same way; when the rest has no asterisk
    either, the formatted text is one paragraph holding the trimmed result
    with its newlines turned into line breaks. *)
Theorem X3_bold_span_becomes_strong : forall pre inner post,
  no_star pre -> inner <> [] -> no_star inner ->
  with_bold (pre ++ js "**" ++ inner ++ js "**" ++ post)
  = pre ++ js "<strong>" ++ inner ++ js "</strong>" ++ with_bold post
  /\ (no_star post ->
      formatAIResponseWithAsterisks (pre ++ js "**" ++ inner ++ js "**" ++ post)
      = js "<p>"
        ++ br (trim (pre ++ js "<strong>" ++ inner ++ js "</strong>" ++ post))
        ++ js "</p>").
Proof.
  intros pre inner post Hp Hne Hi.
  pose proof (with_bold_span pre inner post Hp Hne Hi) as E.
  split; [exact E|]. intros Hpost.
  rewrite (with_bold_no_star post Hpost) in E.
  assert (Hs : no_star (pre ++ js "<strong>" ++ inner ++ js "</strong>" ++ post)).
  { apply Forall_app. split; [exact Hp|].
    apply Forall_app. split; [repeat constructor; discriminate|].
    apply Forall_app. split; [exact Hi|].
    apply Forall_app. split; [repeat constructor; discriminate|exact Hpost]. }
  unfold formatAIResponseWithAsterisks.
  assert (T : truthy (pre ++ js "**" ++ inner ++ js "**" ++ post) = true)
    by (destruct pre; reflexivity).
  rewrite T, E. cbn [negb].
  rewrite paragraphs_of_no_star; [|destruct pre; discriminate|exact Hs].
  cbn [map concat]. rewrite app_nil_r.
  now apply html_paragraph_no_star.
Qed.

Lemma X3_witness_bold_in_sentence :
  with_bold (js "A " ++ js "**" ++ js "soft" ++ js "**" ++ js " mug")
  = js "A " ++ js "<strong>" ++ js "soft" ++ js "</strong>" ++ with_bold (js " mug")
  /\ formatAIResponseWithAsterisks
       (js "A " ++ js "**" ++ js "soft" ++ js "**" ++ js " mug")
     = js "<p>"
       ++ br (trim (js "A " ++ js "<strong>" ++ js "soft" ++ js "</strong>"
                    ++ js " mug"))
       ++ js "</p>".
Proof.
  assert (H : no_star (js "A ") /\ js "soft" <> [] /\ no_star (js "soft")
              /\ no_star (js " mug")).
  { split; [repeat constructor; discriminate|].
    split; [discriminate|].
    split; repeat constructor; discriminate. }
  destruct H as (H1 & H2 & H3 & H4).
  destruct (X3_bold_span_becomes_strong (js "A ") (js "soft") (js " mug") H1 H2 H3)
    as [E F].
  split; [exact E|exact (F H4)].
Defined.

(** X4.  A bullet list, one line per item, each line an asterisk, a blank and
    the item, is formatted as one paragraph per item, in the order of the
    list, holding the item without its marker; the items are not empty,
    trimmed, on one line and without asterisks. *)
Theorem X4_bullet_list_one_paragraph_per_item : forall items,
  items <> [] -> Forall plain_item items ->
  formatAIResponseWithAsterisks (join_lines (map bullet_line items))
  = concat (map (fun item => js "<p>" ++ item ++ js "</p>") items).
Proof. exact format_bullets. Qed.

Lemma X4_witness_two_bullets :
  formatAIResponseWithAsterisks
    (join_lines (map bullet_line [js "First bullet"; js "Second bullet"]))
  = concat (map (fun item => js "<p>" ++ item ++ js "</p>")
              [js "First bullet"; js "Second bullet"]).
Proof.
  apply (X4_bullet_list_one_paragraph_per_item [js "First bullet"; js "Second bullet"]).
  - discriminate.
  - repeat constructor; try discriminate; vm_compute; reflexivity.
Defined.

(** ** The extractor *)

(** X5.  What comes before the first hash of the text is not seen by the
    extractor: a text with a prefix that holds no hash is parsed as the text
    without the prefix. *)
Theorem X5_prefix_without_hash_is_ignored : forall pre text,
  Forall (fun c => c <> HASH) pre ->
  parseAnalysisFromText (pre ++ text) = parseAnalysisFromText text.
Proof. exact parse_prefix. Qed.

Lemma X5_witness_greeting :
  parseAnalysisFromText (js "Here is the analysis." ++ nl ++ tags_example)
  = parseAnalysisFromText tags_example.
Proof.
  apply (X5_prefix_without_hash_is_ignored (js "Here is the analysis." ++ nl)
           tags_example).
  repeat constructor; discriminate.
Defined.

(** X6.  Every text field of every result is trimmed: the assessment, the
    price analysis, and the element, the suggestion and the reasoning of
    every recommendation are left unchanged by [trim]. *)
Theorem X6_text_fields_are_trimmed : forall text,
  exists d, parseAnalysisFromText text = Some d
            /\ trim (overall_assessment d) = overall_assessment d
            /\ trim (price_analysis d) = price_analysis d
            /\ Forall item_trimmed (recommendations d).
Proof.
  intros text. destruct (parse_total text) as [d Hd]. exists d.
  split; [exact Hd|].
  destruct (parse_some_fields text d Hd) as (Ho & Hp & Hr & _).
  rewrite Ho, Hp. split; [apply section_text_trimmed|].
  split; [apply section_text_trimmed|].
  exact (recommendations_trimmed text _ Hr).
Qed.

(** X7.  Every recommendation of every result has a non-empty element and a
    non-empty suggestion or a non-empty reasoning. *)
Theorem X7_items_have_element_and_content : forall text,
  exists d, parseAnalysisFromText text = Some d
            /\ Forall item_ok (recommendations d).
Proof.
  intros text. destruct (parse_total text) as [d Hd]. exists d.
  split; [exact Hd|]. exact (recommendations_items_ok text d Hd).
Qed.

(** X8.  Neither the assessment nor the price analysis of a result contains,
    at any position, a newline directly followed by two hashes. *)
Theorem X8_no_newline_hashes_in_section_text : forall text,
  exists d, parseAnalysisFromText text = Some d
            /\ forall j,
                 at_h2 (skipn j (overall_assessment d)) = false
                 /\ at_h2 (skipn j (price_analysis d)) = false.
Proof.
  intros text. destruct (parse_total text) as [d Hd]. exists d.
  split; [exact Hd|]. intros j.
  destruct (parse_some_fields text d Hd) as (Ho & Hp & _).
  rewrite Ho, Hp. split; apply section_text_no_h2.
Qed.

(** X9.  Every keyword of every result is on one line and starts with a code
    unit that is not whitespace. *)
Theorem X9_keywords_on_one_line : forall text,
  exists d, parseAnalysisFromText text = Some d
            /\ Forall (fun k => Forall (fun c => c <> NL) k
                                /\ exists c t, k = c :: t /\ is_ws c = false)
                 (suggested_keywords d).
Proof.
  intros text. destruct (parse_total text) as [d Hd]. exists d.
  split; [exact Hd|].
  destruct (parse_some_fields text d Hd) as (_ & _ & _ & Hk). rewrite Hk.
  destruct (section_body _ _ _ text) as [b|]; [|constructor].
  rewrite keywords_of_spec. apply spec_keywords_shape, split_char_no_sep.
Qed.

(** ** The list of questions *)

(** X10.  The copy text of a question holds no double quote; in the markup of
    the item it stands between the quotes of its attribute, and reading from
    the opening quote up to the next quote gives back exactly the escaped
    answer: a quote in the answer cannot close the attribute. *)
Theorem X10_copy_text_stays_in_attribute : forall faq,
  Forall (fun c => c <> QUOTE) (escape_quotes (answer faq))
  /\ exists pre post,
       faq_item_html faq
       = pre ++ js " data-copy-text=" ++ dquote
             ++ escape_quotes (answer faq) ++ dquote ++ post
       /\ body_upto (starts_with dquote)
            (escape_quotes (answer faq) ++ dquote ++ post)
          = escape_quotes (answer faq).
Proof.
  intros faq. split; [apply escape_quotes_no_quote|].
  exists (nl ++ js "        <details class=" ++ dquote ++ js "faq-item" ++ dquote ++ js ">"
          ++ nl ++ js "            <summary class=" ++ dquote ++ js "faq-question"
          ++ dquote ++ js ">"
          ++ nl ++ js "                <span>" ++ question faq ++ js "</span>"
          ++ nl ++ js "                <button class=" ++ dquote ++ js "copy-btn"
          ++ dquote).
  eexists. split.
  - unfold faq_item_html. rewrite <- !app_assoc. reflexivity.
  - apply body_upto_char, escape_quotes_no_quote.
Qed.

(** X11.  Escaping leaves an answer unchanged exactly when the answer holds
    no double quote, and escaping twice is escaping once; but the escaping
    cannot be undone: an answer with a quote and the answer with the entity
    text in its place have the same copy text. *)
Theorem X11_escaping_is_lossy : forall s a b,
  (escape_quotes s = s <-> Forall (fun c => c <> QUOTE) s)
  /\ escape_quotes (escape_quotes s) = escape_quotes s
  /\ escape_quotes (a ++ dquote ++ b) = escape_quotes (a ++ js "&quot;" ++ b).
Proof.
  intros s a b. split; [|split].
  - split.
    + intros H. rewrite <- H. apply escape_quotes_no_quote.
    + intros H. rewrite escape_quotes_char. now apply replace_char_absent.
  - rewrite (escape_quotes_char (escape_quotes s)).
    apply replace_char_absent, escape_quotes_no_quote.
  - rewrite !escape_quotes_char, !replace_char_app. reflexivity.
Qed.

(** ** The sources *)

(** X12.  The sources attached to an analysis are the web sources of the
    grounding chunks of the first candidate of the answer, and only these;
    the list of sources shows the sentence that no source was cited exactly
    when that candidate has no chunk with a web source (or the answer has no
    candidate, no grounding metadata or no chunks). *)
Theorem X12_sources_of_first_candidate : forall analysis response,
  (forall w, In w (sources_of_response response) <->
             exists c cs gm chunks ch,
               candidates response = Some (c :: cs)
               /\ groundingMetadata c = Some gm
               /\ groundingChunks gm = Some chunks
               /\ In ch chunks /\ web ch = Some w)
  /\ (sourcesHTML (set_sources analysis (sources_of_response response))
      = no_sources_html
      <-> ~ has_web_chunk response).
Proof.
  intros analysis response. split; [apply sources_of_response_In|].
  rewrite sourcesHTML_fallback. cbn [set_sources sources]. split.
  - intros [H|H]; [discriminate|]. inversion H as [E].
    intros (c & cs & gm & chunks & ch & w & Hw).
    assert (Hin : In w (sources_of_response response)).
    { apply sources_of_response_In. exists c, cs, gm, chunks, ch. exact Hw. }
    rewrite E in Hin. exact Hin.
  - intros H. right. f_equal.
    destruct (sources_of_response response) as [|w l] eqn:E; [reflexivity|].
    exfalso. apply H.
    assert (Hin : In w (sources_of_response response)) by (rewrite E; now left).
    apply sources_of_response_In in Hin.
    destruct Hin as (c & cs & gm & chunks & ch & Hw).
    exists c, cs, gm, chunks, ch, w. exact Hw.
Qed.

(** ** The prompts of the follow-up actions *)

(** X13.  The title and the description put into a prompt are looked up by
    exact equality of the element: the suggestion used is that of the first
    recommendation whose element is the name, whatever follows it, and there
    is none exactly when no recommendation has this element. *)
Theorem X13_first_matching_element_wins : forall name,
  (forall pre r post,
     Forall (fun x => element x <> name) pre -> element r = name ->
     optimized name (pre ++ r :: post) = Some (suggestion r))
  /\ (forall recs,
        optimized name recs = None <-> Forall (fun x => element x <> name) recs).
Proof.
  intros name. split.
  - intros pre r post Hp Hr. unfold optimized.
    now rewrite (find_element_first name pre r post Hp Hr).
  - intros recs. unfold optimized. rewrite <- find_element_none.
    destruct (find_element name recs); split; intros H;
      try reflexivity; discriminate.
Qed.

Lemma X13_witness_second_title_unused :
  optimized (js "Title")
    ([Build_Recommendation (js "Photos") (js "Add one") []]
     ++ Build_Recommendation (js "Title") (js "Soft mug") []
        :: [Build_Recommendation (js "Title") (js "Other") []])
  = Some (js "Soft mug").
Proof.
  apply (proj1 (X13_first_matching_element_wins (js "Title"))
           [Build_Recommendation (js "Photos") (js "Add one") []]
           (Build_Recommendation (js "Title") (js "Soft mug") [])
           [Build_Recommendation (js "Title") (js "Other") []]).
  - repeat constructor; discriminate.
  - reflexivity.
Defined.

(** X14.  When no recommendation has the element Title and none has the
    element Description, both prompts carry the word undefined between the
    quotes, in place of the title and of the description; this is so for the
    analysis of any text without a Recommendations heading. *)
Theorem X14_prompt_says_undefined :
  (forall recs,
     Forall (fun r => element r <> js "Title") recs ->
     Forall (fun r => element r <> js "Description") recs ->
     product_lines recs
     = js "        Product Title: " ++ dquote ++ js "undefined" ++ dquote ++ nl
       ++ js "        Product Description: " ++ dquote ++ js "undefined" ++ dquote
       ++ nl)
  /\ (forall text,
        ~ contains_heading (js "##") (js "Actionable Recommendations") text ->
        exists d, parseAnalysisFromText text = Some d
                  /\ promo_prompt (recommendations d) = promo_prompt []
                  /\ faq_prompt (recommendations d) = faq_prompt []).
Proof.
  split.
  - intros recs Ht Hd. unfold product_lines, optimized.
    apply find_element_none in Ht. apply find_element_none in Hd.
    rewrite Ht, Hd. reflexivity.
  - intros text H. destruct (parse_total text) as [d Hd]. exists d.
    split; [exact Hd|].
    destruct (parse_some_fields text d Hd) as (_ & _ & Hr & _).
    apply absent_heading_not_found in H; [|reflexivity].
    unfold recommendations_of, section_body in Hr. rewrite H in Hr.
    inversion Hr as [E]. split; reflexivity.
Qed.

Lemma X14_witness_only_tags :
  product_lines [Build_Recommendation (js "Photos") (js "Add one") []]
  = js "        Product Title: " ++ dquote ++ js "undefined" ++ dquote ++ nl
    ++ js "        Product Description: " ++ dquote ++ js "undefined" ++ dquote
    ++ nl
  /\ exists d, parseAnalysisFromText tags_example = Some d
               /\ promo_prompt (recommendations d) = promo_prompt []
               /\ faq_prompt (recommendations d) = faq_prompt [].
Proof.
  split.
  - apply (proj1 X14_prompt_says_undefined
             [Build_Recommendation (js "Photos") (js "Add one") []]);
      repeat constructor; discriminate.
  - apply (proj2 X14_prompt_says_undefined tags_example).
    apply not_found_absent_heading; [reflexivity|]. vm_compute. reflexivity.
Defined.

(** ** The first analysis *)

(** X15.  When the text area holds nothing but whitespace, the handler shows
    the request to paste a listing and does nothing else: the button is left
    alone, the service is not called whatever it would answer, and the
    current analysis is kept; the stored listing is the empty string. *)
Theorem X15_blank_listing_is_refused : forall st value generate,
  all_ws value ->
  handleInitialGeneration st value generate
  = (Build_app_state (currentAnalysis st) (Some []) (currentFAQs st),
     [DisplayError (js "Please paste your product listing to get started.")]).
Proof.
  intros st value generate H. unfold handleInitialGeneration.
  rewrite (trim_all_ws value H). reflexivity.
Qed.

Lemma X15_witness_blank_lines :
  handleInitialGeneration (Build_app_state None None None) (js "  " ++ nl)
    (fun _ => None)
  = (Build_app_state None (Some []) None,
     [DisplayError (js "Please paste your product listing to get started.")]).
Proof.
  apply (X15_blank_listing_is_refused (Build_app_state None None None)
           (js "  " ++ nl) (fun _ => None)).
  repeat constructor.
Defined.

(** X16.  When the text area holds a listing and the service answers the
    prompt built from the trimmed listing with a non-empty text, the text is
    always parsed and displayed: the handler sets the button loading, clears
    the results, calls the service once, displays the analysis of the text
    with the sources of the answer attached, which becomes the current
    analysis, and resets the button; no error is shown. *)
Theorem X16_answer_with_text_is_displayed :
  forall st value generate response content,
    ~ all_ws value ->
    generate (analysis_prompt (trim value)) = Some response ->
    text response = Some content -> content <> [] ->
    exists analysis,
      parseAnalysisFromText content = Some analysis
      /\ handleInitialGeneration st value generate
         = (Build_app_state
              (Some (set_sources analysis (sources_of_response response)))
              (Some (trim value)) (currentFAQs st),
            [SetButtonLoading true (js "Analyze Listing"); ClearResults;
             GenerateContent (analysis_prompt (trim value));
             DisplayResults (set_sources analysis (sources_of_response response));
             SetButtonLoading false (js "Analyze Listing")]).
Proof.
  intros st value generate response content Hv Hg Ht Hc.
  destruct (parse_total content) as [analysis Ha]. exists analysis.
  split; [exact Ha|]. unfold handleInitialGeneration.
  destruct (trim value) as [|c0 t0] eqn:E.
  - exfalso. apply Hv. now apply trim_nil_all_ws.
  - cbn [truthy negb]. rewrite Hg, Ht.
    destruct content as [|c t]; [congruence|]. rewrite Ha. reflexivity.
Qed.

Lemma X16_witness_assessment_only :
  exists analysis,
    parseAnalysisFromText (js "## Overall Assessment" ++ nl ++ js "Good.")
    = Some analysis
    /\ handleInitialGeneration (Build_app_state None None None) (js "mug")
         (fun _ => Some (Build_GenerateContentResponse
                           (Some (js "## Overall Assessment" ++ nl ++ js "Good."))
                           None))
       = (Build_app_state
            (Some (set_sources analysis
                     (sources_of_response
                        (Build_GenerateContentResponse
                           (Some (js "## Overall Assessment" ++ nl ++ js "Good."))
                           None))))
            (Some (trim (js "mug"))) None,
          [SetButtonLoading true (js "Analyze Listing"); ClearResults;
           GenerateContent (analysis_prompt (trim (js "mug")));
           DisplayResults
             (set_sources analysis
                (sources_of_response
                   (Build_GenerateContentResponse
                      (Some (js "## Overall Assessment" ++ nl ++ js "Good."))
                      None)));
           SetButtonLoading false (js "Analyze Listing")]).
Proof.
  apply (X16_answer_with_text_is_displayed (Build_app_state None None None)
           (js "mug")
           (fun _ => Some (Build_GenerateContentResponse
                             (Some (js "## Overall Assessment" ++ nl ++ js "Good."))
                             None))
           (Build_GenerateContentResponse
              (Some (js "## Overall Assessment" ++ nl ++ js "Good.")) None)
           (js "## Overall Assessment" ++ nl ++ js "Good.")).
  - intros H. inversion H as [|? ? H1 _]. discriminate H1.
  - reflexivity.
  - reflexivity.
  - discriminate.
Defined.

(** ** From the text of the answer to the page *)

(** X17.  When the text of the answer holds no asterisk, every field that the
    page formats is shown as it was extracted: the assessment, the price
    analysis, and the suggestion and the reasoning of every recommendation
    are formatted to nothing when empty, and otherwise to one paragraph that
    holds the field itself, its newlines turned into line break elements;
    nothing is trimmed away or cut at this stage. *)
Theorem X17_plain_fields_are_shown_whole : forall text,
  no_star text ->
  exists d, parseAnalysisFromText text = Some d
            /\ shown_plain (overall_assessment d)
            /\ shown_plain (price_analysis d)
            /\ Forall (fun r => shown_plain (suggestion r)
                                /\ shown_plain (reasoning r))
                 (recommendations d).
Proof.
  intros text Hs. destruct (parse_total text) as [d Hd]. exists d.
  split; [exact Hd|].
  destruct (parse_some_fields text d Hd) as (Ho & Hp & Hr & _).
  rewrite Ho, Hp.
  split; [apply shown_plain_trimmed;
          [apply section_text_trimmed|now apply Forall_section_text]|].
  split; [apply shown_plain_trimmed;
          [apply section_text_trimmed|now apply Forall_section_text]|].
  pose proof (recommendations_trimmed text _ Hr) as Ht.
  pose proof (recommendations_parts (fun c => c <> STAR) text _ Hs Hr) as Hn.
  apply Forall_forall. intros r Hin.
  rewrite Forall_forall in Ht, Hn.
  destruct (Ht r Hin) as (_ & T1 & T2). destruct (Hn r Hin) as (N1 & N2).
  split; apply shown_plain_trimmed; assumption.
Qed.

Lemma X17_witness_recommendation :
  exists d, parseAnalysisFromText other_heading_example = Some d
            /\ shown_plain (overall_assessment d)
            /\ shown_plain (price_analysis d)
            /\ Forall (fun r => shown_plain (suggestion r)
                                /\ shown_plain (reasoning r))
                 (recommendations d).
Proof.
  apply (X17_plain_fields_are_shown_whole other_heading_example).
  repeat constructor; discriminate.
Defined.

(** X18.  For a listing that is not blank, a rejected call of the service
    gives the console message and the general error, and an answer without
    text, or with the empty text, gives the error about the empty response;
    in both cases the button is reset at the end and the current analysis is
    kept.  The general error has no other cause: when the console message is
    among the effects, the call of the service was rejected. *)
Theorem X18_errors_of_first_analysis : forall st value generate,
  ~ all_ws value ->
  (generate (analysis_prompt (trim value)) = None ->
   handleInitialGeneration st value generate
   = (Build_app_state (currentAnalysis st) (Some (trim value)) (currentFAQs st),
      [SetButtonLoading true (js "Analyze Listing"); ClearResults;
       GenerateContent (analysis_prompt (trim value));
       ConsoleError (js "Initial generation failed:");
       DisplayError (js "An unexpected error occurred. Please check your API key and try again.");
       SetButtonLoading false (js "Analyze Listing")]))
  /\ (forall response,
        generate (analysis_prompt (trim value)) = Some response ->
        text response = None \/ text response = Some [] ->
        handleInitialGeneration st value generate
        = (Build_app_state (currentAnalysis st) (Some (trim value)) (currentFAQs st),
           [SetButtonLoading true (js "Analyze Listing"); ClearResults;
            GenerateContent (analysis_prompt (trim value));
            DisplayError (js "The AI returned an empty response. Please try again.");
            SetButtonLoading false (js "Analyze Listing")]))
  /\ (forall label,
        In (ConsoleError label) (snd (handleInitialGeneration st value generate)) ->
        generate (analysis_prompt (trim value)) = None).
Proof.
  intros st value generate Hv. unfold handleInitialGeneration.
  destruct (trim value) as [|c0 t0] eqn:E;
    [exfalso; apply Hv; now apply trim_nil_all_ws|].
  cbn [truthy negb]. split; [|split].
  - intros Hg. rewrite Hg. reflexivity.
  - intros response Hg Ht. rewrite Hg. destruct Ht as [Ht|Ht]; rewrite Ht; reflexivity.
  - intros label Hin.
    destruct (generate (analysis_prompt (c0 :: t0))) as [response|]; [|reflexivity].
    exfalso. destruct (text response) as [[|c t]|].
    + cbn in Hin. intuition discriminate.
    + destruct (parse_total (c :: t)) as [a Ha]. rewrite Ha in Hin.
      cbn in Hin. intuition discriminate.
    + cbn in Hin. intuition discriminate.
Qed.

Lemma X18_witness_rejected_and_empty :
  handleInitialGeneration (Build_app_state None None None) (js "mug") (fun _ => None)
  = (Build_app_state None (Some (trim (js "mug"))) None,
     [SetButtonLoading true (js "Analyze Listing"); ClearResults;
      GenerateContent (analysis_prompt (trim (js "mug")));
      ConsoleError (js "Initial generation failed:");
      DisplayError (js "An unexpected error occurred. Please check your API key and try again.");
      SetButtonLoading false (js "Analyze Listing")])
  /\ handleInitialGeneration (Build_app_state None None None) (js "mug")
       (fun _ => Some (Build_GenerateContentResponse (Some []) None))
     = (Build_app_state None (Some (trim (js "mug"))) None,
        [SetButtonLoading true (js "Analyze Listing"); ClearResults;
         GenerateContent (analysis_prompt (trim (js "mug")));
         DisplayError (js "The AI returned an empty response. Please try again.");
         SetButtonLoading false (js "Analyze Listing")])
  /\ (fun _ : jsstring => @None GenerateContentResponse)
       (analysis_prompt (trim (js "mug"))) = None.
Proof.
  assert (Hv : ~ all_ws (js "mug")).
  { intros H. inversion H as [|? ? H1 _]. discriminate H1. }
  split; [|split].
  - apply (proj1 (X18_errors_of_first_analysis (Build_app_state None None None)
                    (js "mug") (fun _ => None) Hv)).
    reflexivity.
  - apply (proj1 (proj2 (X18_errors_of_first_analysis (Build_app_state None None None)
                           (js "mug")
                           (fun _ => Some (Build_GenerateContentResponse (Some []) None))
                           Hv))
             (Build_GenerateContentResponse (Some []) None)).
    + reflexivity.
    + right. reflexivity.
  - apply (proj2 (proj2 (X18_errors_of_first_analysis (Build_app_state None None None)
                           (js "mug") (fun _ => None) Hv))
             (js "Initial generation failed:")).
    vm_compute. tauto.
Defined.
